(** * Awesome Travel Planner: trip state, snapshots and PDF export

    A shallow embedding of [src/App.tsx].  The React component keeps its
    state in [useState] cells and changes it only through the handlers
    below; each handler is a function on an explicit application state.
    What the environment supplies (the clock, the answer to [confirm] and
    [prompt], the rasterised size of a DOM element, a library call that
    throws) is an argument of the handler that consumes it.

    JavaScript numbers are binary64 floats.  Timestamps ([Date.now()],
    [getTime()]) and array indices, which are whole numbers printed in
    full, are integers. *)

From Stdlib Require Import QArith Lqa Floats.
From stdpp Require Import gmap strings list pretty.

Open Scope Q_scope.

(** ** Exceptions and state

    [try { .. } catch { .. } finally { .. }] blocks are modelled in a state
    monad with exceptions: a computation maps a state to a result and the
    state reached, also when it throws. *)

Module Js.

Inductive result (A : Type) : Type :=
| Ok (a : A)
| Throw (err : string).
Arguments Ok {A} a.
Arguments Throw {A} err.

Definition M (S A : Type) : Type := S -> result A * S.

Definition ret {S A : Type} (a : A) : M S A := fun s => (Ok a, s).

Definition bind {S A B : Type} (m : M S A) (f : A -> M S B) : M S B :=
  fun s =>
    match m s with
    | (Ok a, s') => f a s'
    | (Throw e, s') => (Throw e, s')
    end.

Definition throw {S A : Type} (e : string) : M S A := fun s => (Throw e, s).

Definition modify {S : Type} (f : S -> S) : M S unit := fun s => (Ok tt, f s).

Definition gets {S A : Type} (f : S -> A) : M S A := fun s => (Ok (f s), s).

(** [try body catch (e) handler] *)
Definition try_catch {S A : Type} (body : M S A) (handler : string -> M S A) : M S A :=
  fun s =>
    match body s with
    | (Ok a, s') => (Ok a, s')
    | (Throw e, s') => handler e s'
    end.

(** [try body finally fin]: [fin] runs on every exit of [body]; an
    exception of [fin] replaces the outcome of [body]. *)
Definition try_finally {S A : Type} (body : M S A) (fin : M S unit) : M S A :=
  fun s =>
    match body s with
    | (r, s') =>
        match fin s' with
        | (Ok _, s'') => (r, s'')
        | (Throw e, s'') => (Throw e, s'')
        end
    end.

(** [for (const x of xs) body(x)] *)
Fixpoint for_of {S A : Type} (xs : list A) (body : A -> M S unit) : M S unit :=
  match xs with
  | [] => ret tt
  | x :: rest => bind (body x) (fun _ => for_of rest body)
  end.

(** Two ways to specify a computation: [always P m] says that [m] keeps
    [P] on every exit, thrown exceptions included; [on_ok P m Q] says that
    from [P] a normal exit of [m] ends in [Q]. *)
Definition always {S A : Type} (P : S -> Prop) (m : M S A) : Prop :=
  forall s, P s -> P (m s).2.

Definition on_ok {S A : Type} (P : S -> Prop) (m : M S A) (Q : S -> Prop) : Prop :=
  forall s a s', P s -> m s = (Ok a, s') -> Q s'.


End Js.

Declare Scope js_scope.
Delimit Scope js_scope with js.
Notation "x <- m ;; k" := (Js.bind m (fun x => k))
  (at level 100, m at next level, right associativity) : js_scope.
Notation "m ;; k" := (Js.bind m (fun _ => k))
  (at level 100, right associativity) : js_scope.

(** ** Numbers

    A JavaScript number is an IEEE 754 binary64 float ([number]).  Code
    that computes on numbers is written over a number structure, so that
    it can be run as the program runs it ([binary64]) and reasoned about
    in exact arithmetic ([exact], the rationals). *)

Module Number.

Abbreviation number := float (only parsing).

(** What the program does with numbers: integer literals and the integer
    sizes of an image, the four operations, and the test [a > b]. *)
Class Num (N : Type) : Type := mkNum {
  of_Z : Z -> N;
  add : N -> N -> N;
  sub : N -> N -> N;
  mul : N -> N -> N;
  div : N -> N -> N;
  gtb : N -> N -> bool }.

(** [a > b] on rationals *)
Definition Qgtb (a b : Q) : bool := negb (Qle_bool a b).

(** The float nearest to an integer (ties to even) *)
Definition float_of_Z (z : Z) : number :=
  SF2Prim (binary_normalize prec emax z 0 false).

(** The rationals *)
#[global] Instance exact : Num Q := mkNum Q inject_Z Qplus Qminus Qmult Qdiv Qgtb.

(** The numbers of the program: the IEEE 754 operations, rounding to
    nearest, ties to even; a comparison with NaN is false. *)
#[global] Instance binary64 : Num number :=
  mkNum float float_of_Z PrimFloat.add PrimFloat.sub PrimFloat.mul PrimFloat.div
    (fun a b => PrimFloat.ltb b a).

(** Builtins of the JavaScript engine that the program uses on numbers:
    [Number::toString], which a template literal applies to a number. *)
Class Builtins : Type := mkBuiltins {
  Number_toString : number -> string }.

End Number.

Declare Scope num_scope.
Delimit Scope num_scope with num.
Notation "x + y" := (Number.add x y) : num_scope.
Notation "x - y" := (Number.sub x y) : num_scope.
Notation "x * y" := (Number.mul x y) : num_scope.
Notation "x / y" := (Number.div x y) : num_scope.
Notation "x >? y" := (Number.gtb x y) (at level 70, no associativity) : num_scope.

(** ** Persistence store: [loadState] *)

Module Persistence.
Import Js.

(** [localStorage]: a string-keyed store of strings; a browser that denies
    access to storage makes [getItem] throw. *)
Inductive Storage : Type :=
| StorageDenied
| StorageOf (items : gmap string string).

(** What [loadState] writes with [console.error]. *)
Definition Console : Type := list string.

Definition getItem (st : Storage) (key : string) : M Console (option string) :=
  match st with
  | StorageDenied => throw "SecurityError"
  | StorageOf items => ret (items !! key)
  end.

Definition console_error (msg : string) : M Console unit :=
  modify (fun c => c ++ [msg]).

(** [JSON.parse] is a builtin: it is the parameter [parse], which throws on
    text that is not JSON. *)
Definition loadState {T : Type} (parse : string -> result T) (st : Storage)
    (key : string) (defaultValue : T) : M Console T :=
  try_catch
    (saved <- getItem st key ;;
     match saved with
     | None => ret defaultValue
     | Some text =>
         match parse text with
         | Ok v => ret v
         | Throw e => throw e
         end
     end)%js
    (fun e =>
       console_error ("Failed to load state from localStorage for key: " +:+ key) ;;
       ret defaultValue)%js.

End Persistence.

(** ** Trip aggregate and snapshots *)

Module Trip.
Import Number.

(** *** Data model

    The type declarations of [./types] are not among the sources; the
    types below follow section 3 of the specification and the object
    literals of [App.tsx]. *)

(** Modelled from the spec: the type [Currency] of [./types], an
    enum-like string tag [USD | EUR | PLN | CHF]. *)
Inductive Currency : Type := USD | EUR | PLN | CHF.

#[global] Instance Currency_eq_dec : EqDecision Currency.
Proof. solve_decision. Defined.

#[global] Instance Currency_countable : Countable Currency.
Proof.
  refine (inj_countable'
    (fun c => match c with USD => 0 | EUR => 1 | PLN => 2 | CHF => 3 end)%nat
    (fun n => match n with 0 => USD | 1 => EUR | 2 => PLN | _ => CHF end)%nat _).
  by intros [].
Defined.

(** Modelled from the spec: the type [Activity] of [./types], with its
    string [id] and the fields [time], [title] and [description]. *)
Record Activity : Type := mkActivity {
  activity_id : string;
  time : string;
  title : string;
  description : string }.

(** Modelled from the spec: the type [Day] of [./types], a day number and
    the ordered activities of the day. *)
Record Day : Type := mkDay {
  day : number;
  activities : list Activity }.

(** Modelled from the spec: the type [BudgetItem] of [./types], a numeric
    [id] besides [label], [amount] and [category]; [BudgetFields] is
    [Omit<BudgetItem, 'id'>]. *)
Record BudgetFields : Type := mkBudgetFields {
  label : string;
  amount : number;
  category : string }.

Record BudgetItem : Type := mkBudgetItem {
  budget_id : Z;
  budget_fields : BudgetFields }.

(** Modelled from the spec: the type [Contact] of [./types], a numeric
    [id] besides [name] and [info]; [ContactFields] is
    [Omit<Contact, 'id'>]. *)
Record ContactFields : Type := mkContactFields {
  contact_name : string;
  info : string }.

Record Contact : Type := mkContact {
  contact_id : Z;
  contact_fields : ContactFields }.

(** *** The object store

    Arrays and the rates object are JavaScript objects: a state cell, or a
    field of a saved trip, holds a reference to one.  References are
    locations of a store; two references are the same object when the
    locations are equal. *)

Abbreviation loc := nat (only parsing).

(** Modelled from the spec: [ExchangeRates] of [./types] is a mapping from
    [Currency] to a rate; as a JavaScript object it may lack a key, so it
    is a finite map ([ORates]). *)
Inductive obj : Type :=
| ODays (ds : list Day)
| OBudget (bs : list BudgetItem)
| OContacts (cs : list Contact)
| ORates (r : gmap Currency number).

Abbreviation Heap := (list obj) (only parsing).

Definition days_at (h : Heap) (l : loc) : option (list Day) :=
  match h !! l with Some (ODays ds) => Some ds | _ => None end.

Definition budget_at (h : Heap) (l : loc) : option (list BudgetItem) :=
  match h !! l with Some (OBudget bs) => Some bs | _ => None end.

Definition contacts_at (h : Heap) (l : loc) : option (list Contact) :=
  match h !! l with Some (OContacts cs) => Some cs | _ => None end.

Definition rates_at (h : Heap) (l : loc) : option (gmap Currency number) :=
  match h !! l with Some (ORates r) => Some r | _ => None end.

Record FormState : Type := mkFormState {
  destination : string;
  startDate : string;
  endDate : string;
  interests : string }.

(** The [data] of a saved trip, and the five state cells of the live
    aggregate: [itinerary] is [null] or a reference to the array of days. *)
Record TripData : Type := mkTripData {
  itinerary : option loc;
  budgetItems : loc;
  contacts : loc;
  currency : Currency;
  exchangeRates : loc }.

Record SavedTrip : Type := mkSavedTrip {
  trip_id : Z;
  name : string;
  formState : FormState;
  data : TripData }.

(** What a reader of [data] sees through the references (deep value). *)
Record TripValue : Type := mkTripValue {
  v_itinerary : option (list Day);
  v_budgetItems : list BudgetItem;
  v_contacts : list Contact;
  v_currency : Currency;
  v_exchangeRates : gmap Currency number }.

Definition resolve (h : Heap) (d : TripData) : option TripValue :=
  it ← match itinerary d with
       | None => Some None
       | Some l => Some <$> days_at h l
       end;
  bs ← budget_at h (budgetItems d);
  cs ← contacts_at h (contacts d);
  r ← rates_at h (exchangeRates d);
  Some (mkTripValue it bs cs (currency d) r).

(** *** Application state *)

Record AppState : Type := mkAppState {
  form : FormState;          (* destination, startDate, endDate, interests *)
  isLoading : bool;
  error : option string;
  live : TripData;           (* itinerary, budgetItems, contacts, currency, exchangeRates *)
  savedTrips : list SavedTrip;
  heap : Heap;
  alerts : list string }.    (* messages shown with alert(), oldest first *)

(** The constants of [./components/constants], which is not among the
    sources, are a parameter of the handlers that use them; they are
    module-level objects, allocated once, at fixed locations of the
    store. *)
Record Template : Type := mkTemplate {
  polishedTemplate_itinerary : list Day;
  defaultBudgetItems : list BudgetItem;
  defaultContacts : list Contact }.

Definition defaultBudgetItems_loc : loc := 0%nat.
Definition defaultContacts_loc : loc := 1%nat.

(** State setters ([useState]) *)

Definition setForm (f : FormState) (s : AppState) : AppState :=
  mkAppState f (isLoading s) (error s) (live s) (savedTrips s) (heap s) (alerts s).
Definition setIsLoading (b : bool) (s : AppState) : AppState :=
  mkAppState (form s) b (error s) (live s) (savedTrips s) (heap s) (alerts s).
Definition setError (e : option string) (s : AppState) : AppState :=
  mkAppState (form s) (isLoading s) e (live s) (savedTrips s) (heap s) (alerts s).
Definition setLive (d : TripData) (s : AppState) : AppState :=
  mkAppState (form s) (isLoading s) (error s) d (savedTrips s) (heap s) (alerts s).
Definition setSavedTrips (ts : list SavedTrip) (s : AppState) : AppState :=
  mkAppState (form s) (isLoading s) (error s) (live s) ts (heap s) (alerts s).
Definition setHeap (h : Heap) (s : AppState) : AppState :=
  mkAppState (form s) (isLoading s) (error s) (live s) (savedTrips s) h (alerts s).
Definition alert (msg : string) (s : AppState) : AppState :=
  mkAppState (form s) (isLoading s) (error s) (live s) (savedTrips s) (heap s)
    (alerts s ++ [msg]).

Definition setDestination (v : string) (s : AppState) : AppState :=
  setForm (mkFormState v (startDate (form s)) (endDate (form s)) (interests (form s))) s.
Definition setStartDate (v : string) (s : AppState) : AppState :=
  setForm (mkFormState (destination (form s)) v (endDate (form s)) (interests (form s))) s.
Definition setEndDate (v : string) (s : AppState) : AppState :=
  setForm (mkFormState (destination (form s)) (startDate (form s)) v (interests (form s))) s.
Definition setInterests (v : string) (s : AppState) : AppState :=
  setForm (mkFormState (destination (form s)) (startDate (form s)) (endDate (form s)) v) s.

Definition setItinerary (v : option loc) (s : AppState) : AppState :=
  let d := live s in
  setLive (mkTripData v (budgetItems d) (contacts d) (currency d) (exchangeRates d)) s.
Definition setBudgetItems (v : loc) (s : AppState) : AppState :=
  let d := live s in
  setLive (mkTripData (itinerary d) v (contacts d) (currency d) (exchangeRates d)) s.
Definition setContacts (v : loc) (s : AppState) : AppState :=
  let d := live s in
  setLive (mkTripData (itinerary d) (budgetItems d) v (currency d) (exchangeRates d)) s.
Definition setCurrency (v : Currency) (s : AppState) : AppState :=
  let d := live s in
  setLive (mkTripData (itinerary d) (budgetItems d) (contacts d) v (exchangeRates d)) s.
Definition setExchangeRates (v : loc) (s : AppState) : AppState :=
  let d := live s in
  setLive (mkTripData (itinerary d) (budgetItems d) (contacts d) (currency d) v) s.

(** A new object (an array literal, the result of a spread, [filter] or
    [map], an object literal) is a new location; no cell is overwritten. *)
Definition new (o : obj) (s : AppState) : loc * AppState :=
  (length (heap s), setHeap (heap s ++ [o]) s).

(** Reading an array through a state cell.  A cell of a well-formed state
    always holds an array of the right kind (see [wf]); elsewhere the read
    yields the empty array. *)
Definition budget_of (s : AppState) : list BudgetItem :=
  default [] (budget_at (heap s) (budgetItems (live s))).
Definition contacts_of (s : AppState) : list Contact :=
  default [] (contacts_at (heap s) (contacts (live s))).

(** [!s] on a string *)
Definition falsy (v : string) : bool := bool_decide (v = "").

(** An in-place write to an object of the store: an assignment to an
    element or a property, [push], [splice].  No code of [App.tsx]
    performs one; it is what any holder of a reference can do. *)
Definition overwrite (l : loc) (o : obj) (s : AppState) : AppState :=
  setHeap (<[l := o]> (heap s)) s.

(** *** Handlers *)

Section Handlers.

Context {builtins : Builtins}.

(** [handleGenerate], up to [setTimeout] *)
Definition handleGenerate (s : AppState) : AppState :=
  if falsy (destination (form s)) || falsy (startDate (form s)) || falsy (endDate (form s))
  then setError (Some "Please fill in all required fields.") s
  else
    let s := setIsLoading true s in
    let s := setError None s in
    let s := setItinerary None s in
    let '(l, s) := new (OBudget []) s in
    let s := setBudgetItems l s in
    let '(l, s) := new (OContacts []) s in
    setContacts l s.

(** The plan built in the timer callback: the template's days, every
    activity given the id [activity-{day}-{index}-{time}]; the day number
    is printed as the engine prints a number; the clock is read once per
    activity ([getTime i index] is what it shows for the activity at
    [index] of the [i]-th day). *)
Definition planWithIds (tpl : list Day) (getTime : nat -> nat -> Z) : list Day :=
  imap (fun i d =>
    mkDay (day d)
      (imap (fun index a =>
         mkActivity
           ("activity-" +:+ Number_toString (day d) +:+ "-" +:+ pretty index +:+ "-"
              +:+ pretty (getTime i index))
           (time a) (title a) (description a))
         (activities d)))
    tpl.

(** The callback of [setTimeout(.., 1500)] in [handleGenerate].  On a
    template of the declared type the [map]s cannot throw, so the [catch]
    branch is not reached. *)
Definition handleGenerate_timeout (tpl : Template) (getTime : nat -> nat -> Z)
    (s : AppState) : AppState :=
  let '(l, s) := new (ODays (planWithIds (polishedTemplate_itinerary tpl) getTime)) s in
  let s := setItinerary (Some l) s in
  let s := setBudgetItems defaultBudgetItems_loc s in
  let s := setContacts defaultContacts_loc s in
  setIsLoading false s.

Definition handleClearItinerary (confirm : bool) (s : AppState) : AppState :=
  if confirm then
    let s := setItinerary None s in
    let '(l, s) := new (OBudget []) s in
    let s := setBudgetItems l s in
    let '(l, s) := new (OContacts []) s in
    setContacts l s
  else s.

(** [!itinerary || itinerary.length === 0] *)
Definition nothing_to_save (s : AppState) : bool :=
  match itinerary (live s) with
  | None => true
  | Some l =>
      match days_at (heap s) l with
      | Some ds => bool_decide (length ds = 0%nat)
      | None => false
      end
  end.

(** [handleSaveTrip]: [promptResult] is what [prompt] returns ([None] when
    the user cancels), [now] is [Date.now()]. *)
Definition handleSaveTrip (promptResult : option string) (now : Z)
    (s : AppState) : AppState :=
  if nothing_to_save s then alert "There's no itinerary to save." s
  else
    match promptResult with
    | Some tripName =>
        if falsy tripName then s
        else
          let newTrip := mkSavedTrip now tripName (form s) (live s) in
          let s := setSavedTrips (savedTrips s ++ [newTrip]) s in
          alert ("Trip '" +:+ tripName +:+ "' has been saved.") s
    | None => s
    end.

Definition handleLoadTrip (confirm : bool) (tripId : Z) (s : AppState) : AppState :=
  if confirm then
    match List.find (fun t => bool_decide (trip_id t = tripId)) (savedTrips s) with
    | Some tripToLoad =>
        let s := setItinerary (itinerary (data tripToLoad)) s in
        let s := setBudgetItems (budgetItems (data tripToLoad)) s in
        let s := setContacts (contacts (data tripToLoad)) s in
        let s := setCurrency (currency (data tripToLoad)) s in
        let s := setExchangeRates (exchangeRates (data tripToLoad)) s in
        let s := setDestination (destination (formState tripToLoad)) s in
        let s := setStartDate (startDate (formState tripToLoad)) s in
        let s := setEndDate (endDate (formState tripToLoad)) s in
        setInterests (interests (formState tripToLoad)) s
    | None => s
    end
  else s.

Definition handleDeleteTrip (confirm : bool) (tripId : Z) (s : AppState) : AppState :=
  if confirm then
    setSavedTrips (List.filter (fun t => negb (bool_decide (trip_id t = tripId))) (savedTrips s)) s
  else s.

Definition handleUpdateTripName (tripId : Z) (newName : string) (s : AppState) : AppState :=
  setSavedTrips
    (List.map (fun trip =>
       if bool_decide (trip_id trip = tripId)
       then mkSavedTrip (trip_id trip) newName (formState trip) (data trip)
       else trip) (savedTrips s)) s.

Definition handleAddBudgetItem (item : BudgetFields) (now : Z) (s : AppState) : AppState :=
  let newItem := mkBudgetItem now item in
  let '(l, s) := new (OBudget (budget_of s ++ [newItem])) s in
  setBudgetItems l s.

Definition handleDeleteBudgetItem (id : Z) (s : AppState) : AppState :=
  let '(l, s) :=
    new (OBudget (List.filter (fun item => negb (bool_decide (budget_id item = id)))
                    (budget_of s))) s in
  setBudgetItems l s.

Definition handleAddContact (contact : ContactFields) (now : Z) (s : AppState) : AppState :=
  let '(l, s) := new (OContacts (contacts_of s ++ [mkContact now contact])) s in
  setContacts l s.

Definition handleDeleteContact (id : Z) (s : AppState) : AppState :=
  let '(l, s) :=
    new (OContacts (List.filter (fun c => negb (bool_decide (contact_id c = id)))
                      (contacts_of s))) s in
  setContacts l s.

(** *** Events

    Everything that changes the state of [App]: its handlers, and the
    setters it hands to its children ([setCurrency] and [setExchangeRates]
    to [BudgetPlanner], [setItinerary] to [ItinerarySection], which pass a
    value they have built). *)
Inductive Event : Type :=
| Generate
| GenerateTimeout (getTime : nat -> nat -> Z)
| ClearItinerary (confirm : bool)
| SaveTrip (promptResult : option string) (now : Z)
| LoadTrip (confirm : bool) (tripId : Z)
| DeleteTrip (confirm : bool) (tripId : Z)
| UpdateTripName (tripId : Z) (newName : string)
| AddBudgetItem (item : BudgetFields) (now : Z)
| DeleteBudgetItem (id : Z)
| AddContact (contact : ContactFields) (now : Z)
| DeleteContact (id : Z)
| CurrencyChange (c : Currency)
| RatesChange (r : gmap Currency number)
| ItineraryChange (ds : list Day)
| FormChange (f : FormState).

Definition handle (tpl : Template) (e : Event) (s : AppState) : AppState :=
  match e with
  | Generate => handleGenerate s
  | GenerateTimeout getTime => handleGenerate_timeout tpl getTime s
  | ClearItinerary confirm => handleClearItinerary confirm s
  | SaveTrip promptResult now => handleSaveTrip promptResult now s
  | LoadTrip confirm tripId => handleLoadTrip confirm tripId s
  | DeleteTrip confirm tripId => handleDeleteTrip confirm tripId s
  | UpdateTripName tripId newName => handleUpdateTripName tripId newName s
  | AddBudgetItem item now => handleAddBudgetItem item now s
  | DeleteBudgetItem id => handleDeleteBudgetItem id s
  | AddContact contact now => handleAddContact contact now s
  | DeleteContact id => handleDeleteContact id s
  | CurrencyChange c => setCurrency c s
  | RatesChange r => let '(l, s) := new (ORates r) s in setExchangeRates l s
  | ItineraryChange ds => let '(l, s) := new (ODays ds) s in setItinerary (Some l) s
  | FormChange f => setForm f s
  end.

Definition run (tpl : Template) (es : list Event) (s : AppState) : AppState :=
  foldl (fun s e => handle tpl e s) s es.

(** Events that act on the live aggregate only (not on the list of saved
    trips). *)
Definition live_event (e : Event) : bool :=
  match e with
  | SaveTrip _ _ | DeleteTrip _ _ | UpdateTripName _ _ => false
  | _ => true
  end.

(** What can happen to the state: an event, or a child of [App] calling
    the setter it was given with a reference it holds, whatever it is
    ([setItinerary] in [ItinerarySection], [setExchangeRates] in
    [BudgetPlanner]). *)
Inductive Step : Type :=
| Handled (e : Event)
| ItinerarySet (v : option loc)
| ExchangeRatesSet (l : loc).

Definition step (tpl : Template) (st : Step) (s : AppState) : AppState :=
  match st with
  | Handled e => handle tpl e s
  | ItinerarySet v => setItinerary v s
  | ExchangeRatesSet l => setExchangeRates l s
  end.

Definition play (tpl : Template) (steps : list Step) (s : AppState) : AppState :=
  foldl (fun s st => step tpl st s) s steps.

Definition live_step (st : Step) : bool :=
  match st with
  | Handled e => live_event e
  | _ => true
  end.

(** The state of a first visit: [loadState] finds no key and every cell
    holds its default. *)
#[warnings="-inexact-float"] Definition defaultRates : gmap Currency number :=
  <[USD := 1%float]> (<[EUR := 0.92%float]> (<[PLN := 4.05%float]> (<[CHF := 0.91%float]> ∅))).

Definition initialState (tpl : Template) : AppState :=
  mkAppState
    (mkFormState "Tokyo, Japan" "2024-10-15" "2024-10-20"
       "Ramen, ancient temples, arcades, and street fashion.")
    false None
    (mkTripData None 2%nat 3%nat USD 4%nat)
    []
    [OBudget (defaultBudgetItems tpl); OContacts (defaultContacts tpl);
     OBudget []; OContacts []; ORates defaultRates]
    [].

Inductive reachable (tpl : Template) : AppState -> Prop :=
| reachable_init : reachable tpl (initialState tpl)
| reachable_step e s : reachable tpl s -> reachable tpl (handle tpl e s).

End Handlers.

(** *** Well-formed states *)

Definition wf_data (h : Heap) (d : TripData) : Prop := is_Some (resolve h d).

Record wf (tpl : Template) (s : AppState) : Prop := mkWf {
  wf_live : wf_data (heap s) (live s);
  wf_saved : Forall (fun t => wf_data (heap s) (data t)) (savedTrips s);
  wf_budget_const : budget_at (heap s) defaultBudgetItems_loc = Some (defaultBudgetItems tpl);
  wf_contacts_const : contacts_at (heap s) defaultContacts_loc = Some (defaultContacts tpl) }.


Definition itinerary_ok (h : Heap) (it : option loc) : Prop :=
  match it with None => True | Some l => is_Some (days_at h l) end.

(** A snapshot that holds a plan. *)
Definition holds_plan (h : Heap) (d : TripData) : Prop :=
  exists l ds, itinerary d = Some l /\ days_at h l = Some ds /\ ds <> [].

(** The rate of the selected currency is in the rates mapping. *)
Definition rate_known (h : Heap) (d : TripData) : Prop :=
  exists r, rates_at h (exchangeRates d) = Some r /\ is_Some (r !! currency d).

(** Every saved trip holds a plan: a non-null, non-empty itinerary. *)
Definition saved_nonempty (s : AppState) : Prop :=
  Forall (fun t => holds_plan (heap s) (data t)) (savedTrips s).

(** The rates invariant, of the live aggregate and of every snapshot. *)
Definition rates_complete (s : AppState) : Prop :=
  rate_known (heap s) (live s) /\
  Forall (fun t => rate_known (heap s) (data t)) (savedTrips s).

(** What the children of [App] must respect for the rates invariant to
    survive: a currency they select has a rate, a mapping they install has
    a rate for the selected currency. *)
Definition keeps_rates (s : AppState) (e : Event) : Prop :=
  match e with
  | CurrencyChange c =>
      exists r, rates_at (heap s) (exchangeRates (live s)) = Some r /\ is_Some (r !! c)
  | RatesChange r => is_Some (r !! currency (live s))
  | _ => True
  end.

End Trip.

(** ** Document paginator and export pipeline: [generatePdf]

    The pipeline is written once, over any number structure (see
    [Number]): at [binary64] it computes as the code does, rounding
    included. *)

Module ExportPdf.
Import Js Number.

(** A DOM element seen by the paginator: the size, in pixels, of the
    canvas [html2canvas] renders for it. *)
Record Element : Type := mkElement {
  canvas_width : positive;
  canvas_height : positive }.

(** A [.printable-day-container]: its [.day-header], if any, and its
    [.activity-item]s in document order. *)
Record DayElement : Type := mkDayElement {
  header : option Element;
  activity_items : list Element }.

(** [#itinerary-content]: its [#itinerary-title], if any, and its days. *)
Record Content : Type := mkContent {
  titleElement : option Element;
  dayElements : list DayElement }.

(** A global of [window] that a script is expected to define:
    [undefined] when the script did not load, [null], or some other value,
    which is [usable] when it is what the script defines (for
    [window.jspdf] an object with the [jsPDF] constructor, for
    [window.html2canvas] a function).  [typeof] tells [Undefined] from the
    rest; a property can be read of everything but [Undefined] and
    [Null]. *)
Inductive Global : Type :=
| Undefined
| Null
| Present (usable : bool).

Definition is_undefined (g : Global) : bool :=
  match g with Undefined => true | _ => false end.

Definition is_usable (g : Global) : bool :=
  match g with Present usable => usable | _ => false end.

(** [window] and [document] as [generatePdf] reads them. *)
Record Window : Type := mkWindow {
  jspdf : Global;                       (* window.jspdf *)
  html2canvas : Global;                 (* window.html2canvas *)
  itineraryContent : option Content }.  (* document.getElementById('itinerary-content') *)

(** The jsPDF document *)
Record Image (N : Type) : Type := mkImage {
  img_page : nat;
  img_x : N;
  img_y : N;
  img_width : N;
  img_height : N }.
Arguments mkImage {N} _ _ _ _ _.
Arguments img_page {N} _.
Arguments img_x {N} _.
Arguments img_y {N} _.
Arguments img_width {N} _.
Arguments img_height {N} _.

Record Text (N : Type) : Type := mkText {
  text_page : nat;
  text_value : string;
  text_x : N;
  text_y : N }.
Arguments mkText {N} _ _ _ _.
Arguments text_page {N} _.
Arguments text_value {N} _.
Arguments text_x {N} _.
Arguments text_y {N} _.

Record Pdf (N : Type) : Type := mkPdf {
  numberOfPages : nat;
  currentPage : nat;
  images : list (Image N);   (* in the order of the addImage calls *)
  texts : list (Text N);
  saved : option string }.   (* file name given to save() *)
Arguments mkPdf {N} _ _ _ _ _.
Arguments numberOfPages {N} _.
Arguments currentPage {N} _.
Arguments images {N} _.
Arguments texts {N} _.
Arguments saved {N} _.

(** State of a run of [generatePdf]: its locals [pdf] and [yPos], the React
    cells it sets, the events dispatched on [document], the console, and
    the number of library calls made so far. *)
Record St (N : Type) : Type := mkSt {
  pdf : Pdf N;
  yPos : N;
  calls : nat;
  dispatched : list string;
  error : option string;
  isGeneratingPdf : bool;
  console : list string }.
Arguments mkSt {N} _ _ _ _ _ _ _.
Arguments pdf {N} _.
Arguments yPos {N} _.
Arguments calls {N} _.
Arguments dispatched {N} _.
Arguments error {N} _.
Arguments isGeneratingPdf {N} _.
Arguments console {N} _.

Section Pipeline.

Context {N : Type} {num : Num N}.

Definition A4_WIDTH : N := of_Z 210.
Definition A4_HEIGHT : N := of_Z 297.
Definition MARGIN : N := of_Z 15.
Definition CONTENT_WIDTH : N := (A4_WIDTH - (MARGIN * of_Z 2))%num.

(** [new jsPDF(..)]: one empty page, which is the current page. *)
Definition new_jsPDF : Pdf N := mkPdf 1 1 [] [] None.

Definition setPdf (p : Pdf N) (s : St N) : St N :=
  mkSt p (yPos s) (calls s) (dispatched s) (error s) (isGeneratingPdf s) (console s).
Definition setYPos (y : N) (s : St N) : St N :=
  mkSt (pdf s) y (calls s) (dispatched s) (error s) (isGeneratingPdf s) (console s).
Definition setCalls (n : nat) (s : St N) : St N :=
  mkSt (pdf s) (yPos s) n (dispatched s) (error s) (isGeneratingPdf s) (console s).
Definition setDispatched (d : list string) (s : St N) : St N :=
  mkSt (pdf s) (yPos s) (calls s) d (error s) (isGeneratingPdf s) (console s).
Definition setError (e : option string) (s : St N) : St N :=
  mkSt (pdf s) (yPos s) (calls s) (dispatched s) e (isGeneratingPdf s) (console s).
Definition setIsGeneratingPdf (b : bool) (s : St N) : St N :=
  mkSt (pdf s) (yPos s) (calls s) (dispatched s) (error s) b (console s).
Definition setConsole (c : list string) (s : St N) : St N :=
  mkSt (pdf s) (yPos s) (calls s) (dispatched s) (error s) (isGeneratingPdf s) c.

Definition dispatchEvent (type : string) : M (St N) unit :=
  modify (fun s => setDispatched (dispatched s ++ [type]) s).

Definition console_error (msg : string) : M (St N) unit :=
  modify (fun s => setConsole (console s ++ [msg]) s).

(** Which calls into html2canvas and jsPDF throw: [faults n] says whether
    the [n]-th call of the run does. *)
Variable faults : nat -> bool.

Definition call (what : string) : M (St N) unit :=
  fun s =>
    let s' := setCalls (S (calls s)) s in
    if faults (calls s) then (Throw what, s') else (Ok tt, s').

(** A call of a global of [window]: a value that is not what the script
    defines cannot be called ([TypeError]). *)
Definition call_global (g : Global) (what : string) : M (St N) unit :=
  if is_usable g then call what else throw "TypeError".

Definition addPage : M (St N) unit :=
  (call "addPage" ;;
   modify (fun s =>
     let p := pdf s in
     setPdf (mkPdf (S (numberOfPages p)) (S (numberOfPages p)) (images p) (texts p) (saved p)) s))%js.

Definition addImage (x y w h : N) : M (St N) unit :=
  (call "addImage" ;;
   modify (fun s =>
     let p := pdf s in
     setPdf (mkPdf (numberOfPages p) (currentPage p)
               (images p ++ [mkImage (currentPage p) x y w h]) (texts p) (saved p)) s))%js.

Definition setPage (i : nat) : M (St N) unit :=
  (call "setPage" ;;
   modify (fun s =>
     let p := pdf s in
     setPdf (mkPdf (numberOfPages p) i (images p) (texts p) (saved p)) s))%js.

Definition text (v : string) (x y : N) : M (St N) unit :=
  (call "text" ;;
   modify (fun s =>
     let p := pdf s in
     setPdf (mkPdf (numberOfPages p) (currentPage p) (images p)
               (texts p ++ [mkText (currentPage p) v x y]) (saved p)) s))%js.

Definition save (file : string) : M (St N) unit :=
  (call "save" ;;
   modify (fun s =>
     let p := pdf s in
     setPdf (mkPdf (numberOfPages p) (currentPage p) (images p) (texts p) (Some file)) s))%js.

(** [(imgProps.height * CONTENT_WIDTH) / imgProps.width] *)
Definition imgHeight (element : Element) : N :=
  (of_Z (Zpos (canvas_height element)) * CONTENT_WIDTH
   / of_Z (Zpos (canvas_width element)))%num.

(** [w] is the window whose [html2canvas] the closure calls. *)
Definition addCanvasToPdf (w : Window) (element : Element) : M (St N) unit :=
  (call_global (html2canvas w) "html2canvas" ;;
   call "toDataURL" ;;
   call "getImageProperties" ;;
   y <- gets yPos ;;
   (if (y + imgHeight element >? A4_HEIGHT - MARGIN)%num && (y >? MARGIN)%num
    then addPage ;; modify (setYPos MARGIN)
    else ret tt) ;;
   y <- gets yPos ;;
   addImage MARGIN y CONTENT_WIDTH (imgHeight element) ;;
   modify (fun s => setYPos (yPos s + (imgHeight element + of_Z 2))%num s))%js.

(** The part of the [try] block on the title *)
Definition addTitle (w : Window) (content : Content) : M (St N) unit :=
  match titleElement content with
  | Some titleEl =>
      (addCanvasToPdf w titleEl ;;
       modify (fun s => setYPos (yPos s + of_Z 8)%num s))%js
  | None => ret tt
  end.

(** The body of [for (const dayEl of dayElements)] *)
Definition addDay (w : Window) (dayEl : DayElement) : M (St N) unit :=
  (y <- gets yPos ;;
   (if (y + of_Z 20 >? A4_HEIGHT - MARGIN)%num
    then addPage ;; modify (setYPos MARGIN)
    else ret tt) ;;
   match header dayEl with
   | Some h => addCanvasToPdf w h
   | None => ret tt
   end ;;
   for_of (activity_items dayEl) (addCanvasToPdf w))%js.

(** [for (let i = 1; i <= pageCount; i++)]: the pages [i .. i + n - 1] *)
Fixpoint stampPages (pageCount i n : nat) : M (St N) unit :=
  match n with
  | O => ret tt
  | S n' =>
      (setPage i ;;
       call "setFontSize" ;;
       call "setTextColor" ;;
       text ("Page " +:+ pretty i +:+ " of " +:+ pretty pageCount)
         (A4_WIDTH / of_Z 2)%num (A4_HEIGHT - of_Z 10)%num ;;
       stampPages pageCount (S i) n')%js
  end.

(** The [try] block; [jsPDF] is what line 233 took out of [window.jspdf]. *)
Definition assemble (w : Window) (content : Content) : M (St N) unit :=
  (call_global (jspdf w) "jsPDF" ;;
   modify (setPdf new_jsPDF) ;;
   modify (setYPos MARGIN) ;;
   addTitle w content ;;
   for_of (dayElements content) (addDay w) ;;
   call "getNumberOfPages" ;;
   pageCount <- gets (fun s => numberOfPages (pdf s)) ;;
   (if bool_decide (0 < pageCount)%nat then stampPages pageCount 1 pageCount else ret tt) ;;
   save "awesome-itinerary.pdf")%js.

(** [generatePdf]: the two guards return; between them,
    [const { jsPDF } = window.jspdf] (line 233) is outside the [try] and
    throws to the caller when [window.jspdf] is [null]. *)
Definition generatePdf (w : Window) : M (St N) unit :=
  if is_undefined (jspdf w) || is_undefined (html2canvas w) then
    modify (setError
      (Some "PDF generation libraries could not be loaded. Please refresh the page and try again."))
  else
    match jspdf w with
    | Null => throw "TypeError"
    | _ =>
        match itineraryContent w with
        | None =>
            modify (setError (Some "Can't find the itinerary to print. Did you delete it?"))
        | Some content =>
            (modify (setIsGeneratingPdf true) ;;
             modify (setError None) ;;
             dispatchEvent "generatePdfStart" ;;
             try_finally
               (try_catch
                  (assemble w content)
                  (fun err =>
                     console_error ("Error generating PDF: " +:+ err) ;;
                     modify (setError
                       (Some "Failed to generate the PDF. An unexpected error occurred."))))
               (dispatchEvent "generatePdfEnd" ;;
                modify (setIsGeneratingPdf false)))%js
        end
    end.

(** The state a run starts from: no document yet, the cells as [App]
    holds them when the button is enabled. *)
Definition idle : St N := mkSt (mkPdf 0 0 [] [] None) (of_Z 0) 0 [] None false [].

(** The document after [addPage], and after [addImage] at the left margin *)
Definition page_added (p : Pdf N) : Pdf N :=
  mkPdf (S (numberOfPages p)) (S (numberOfPages p)) (images p) (texts p) (saved p).

Definition image_added (y h : N) (p : Pdf N) : Pdf N :=
  mkPdf (numberOfPages p) (currentPage p)
    (images p ++ [mkImage (currentPage p) MARGIN y CONTENT_WIDTH h]) (texts p) (saved p).

(** Where an image was put: page and vertical position *)
Definition placement (i : Image N) : nat * N := (img_page i, img_y i).

(** The height-fit test of the spec, 4.4 step 3: the block does not fit
    below the cursor, and the page has content. *)
Definition does_not_fit (cursorY h : N) : bool :=
  (cursorY + h >? A4_HEIGHT - MARGIN)%num && (cursorY >? MARGIN)%num.

(** The estimate made before the blocks of a day: a header of height 20
    would not fit below the cursor. *)
Definition header_may_not_fit (cursorY : N) : bool :=
  (cursorY + of_Z 20 >? A4_HEIGHT - MARGIN)%num.

(** How often an event was dispatched. *)
Definition fired (type : string) (s : St N) : nat :=
  count_occ String.string_dec (dispatched s) type.

(** The document after a run of [generatePdf] from the idle state. *)
Definition exported (w : Window) : Pdf N := pdf (generatePdf w idle).2.

End Pipeline.

(** No library call throws. *)
Definition no_faults : nat -> bool := fun _ => false.

(** The blocks of a document in the order they are processed: the title,
    then for each day its header and its activities. *)
Definition day_blocks (d : DayElement) : list Element :=
  option_list (header d) ++ activity_items d.


(** The run enters export mode: both guards pass and line 233 does not
    throw. *)
Definition verified (w : Window) : bool :=
  negb (is_undefined (jspdf w)) && negb (is_undefined (html2canvas w)) &&
  match jspdf w with Null => false | _ => true end &&
  match itineraryContent w with Some _ => true | None => false end.

(** *** The paginator in exact arithmetic

    The layout properties below are stated and proved of the pipeline at
    the [exact] numbers, the rationals. *)





End ExportPdf.

(** ** Sample inputs

    Concrete values on which the properties below are exercised. *)

Module Samples.

(** A toy deserializer: the text [1] and the text [0] parse, anything else
    is a syntax error. *)
Definition parse_bit (text : string) : Js.result bool :=
  if bool_decide (text = "1") then Js.Ok true
  else if bool_decide (text = "0") then Js.Ok false
  else Js.Throw "SyntaxError".

Definition storage : Persistence.Storage :=
  Persistence.StorageOf (<["a" := "1"]> (<["b" := "{"]> ∅)).

Import Trip.

(** The integer part of a finite number (0 for the others) *)
Definition trunc (x : Number.number) : Z :=
  match Prim2SF x with
  | S754_finite s m e =>
      (if s then -1 else 1) * (if 0 <=? e then Zpos m * 2 ^ e else Zpos m / 2 ^ (- e))
  | _ => 0
  end%Z.

(** A printer of whole numbers: the integer part in decimal, which is how
    the engine prints a whole number below 10^21. *)
#[export] Instance whole_numbers : Number.Builtins :=
  Number.mkBuiltins (fun x => pretty (trunc x)).

Definition tpl : Template :=
  mkTemplate
    [mkDay 1%float [mkActivity "" "09:00" "Senso-ji" "Temple visit";
                    mkActivity "" "12:30" "Ramen" "Lunch in Asakusa"];
     mkDay 2%float [mkActivity "" "10:00" "Akihabara" "Arcades"]]
    [mkBudgetItem 1 (mkBudgetFields "Flights" 1200%float "Transport")]
    [mkContact 2 (mkContactFields "Hotel" "front desk")].

(** A plan has been generated. *)
Definition planned : AppState :=
  run tpl [Generate; GenerateTimeout (fun _ _ => 1700000000000%Z)] (initialState tpl).

(** The plan has been saved once. *)
Definition with_trip : AppState := handleSaveTrip (Some "Tokyo") 1700000000500 planned.

(** Edits of the live aggregate, a restore among them, and the state
    after them. *)
Definition edits : list Event :=
  [AddBudgetItem (mkBudgetFields "Sushi" 80%float "Food") 1700000000900%Z;
   DeleteContact 2;
   LoadTrip true 1700000000500%Z;
   DeleteBudgetItem 1;
   ClearItinerary true].

Definition edited : AppState := run tpl edits with_trip.

(** The same edits, and the children of [App] handing to the setters the
    references they were given. *)
Definition shared_edits : list Step :=
  List.map Handled edits ++
  [ItinerarySet (itinerary (live with_trip)); ExchangeRatesSet (exchangeRates (live with_trip));
   Handled (DeleteBudgetItem 1)].

(** The saved trip restored, then saved again. *)
Definition restored : AppState := handleLoadTrip true 1700000000500 with_trip.

Definition saved_again : AppState :=
  handleSaveTrip (Some "Tokyo, again") 1700000000700 restored.

(** A second generate: before and after the timer fires. *)
Definition later : nat -> nat -> Z := fun _ _ => 1700000009000%Z.

Definition generating : AppState := handleGenerate with_trip.

Definition generated : AppState := handleGenerate_timeout tpl later generating.

(** The rates mapping loses the selected currency. *)
#[warnings="-inexact-float"] Definition euro_only : gmap Currency Number.number :=
  <[EUR := 0.92%float]> ∅.

Definition rates_replaced : AppState := handle tpl (RatesChange euro_only) (initialState tpl).

(** Documents to export: blocks are rendered 180 pixels wide, so that the
    height of the image on the page is the height of the canvas. *)
Definition block (h : positive) : ExportPdf.Element := ExportPdf.mkElement 180 h.

(** Both scripts have loaded. *)
Definition loaded : ExportPdf.Global := ExportPdf.Present true.

(** One day, three activities of heights 40, 40 and 250. *)
Definition three_blocks : ExportPdf.Window :=
  ExportPdf.mkWindow loaded loaded
    (Some (ExportPdf.mkContent None
             [ExportPdf.mkDayElement None [block 40; block 40; block 250]])).

(** A title of height 240, then a day with a header of height 5. *)
Definition title_240 : ExportPdf.Content := ExportPdf.mkContent (Some (block 240)) [].

Definition day_header_5 : ExportPdf.DayElement := ExportPdf.mkDayElement (Some (block 5)) [].

Definition title_then_day : ExportPdf.Window :=
  ExportPdf.mkWindow loaded loaded
    (Some (ExportPdf.mkContent (Some (block 240)) [day_header_5])).



(** Two blocks rendered 540 pixels wide, 718 and 77 pixels high: their
    heights on the page are 718/3 and 77/3, which are not floats. *)
Definition thirds : ExportPdf.Window :=
  ExportPdf.mkWindow loaded loaded
    (Some (ExportPdf.mkContent None
             [ExportPdf.mkDayElement None
                [ExportPdf.mkElement 540 718; ExportPdf.mkElement 540 77]])).

(** The paginator, in binary64, at the top of the first page; after two
    blocks of height 40, and after a third of height 250; after the title
    of height 240, and after the day that follows it. *)
Definition first_page : ExportPdf.St Number.number :=
  ExportPdf.setYPos ExportPdf.MARGIN (ExportPdf.setPdf ExportPdf.new_jsPDF ExportPdf.idle).

Definition two_placed : ExportPdf.St Number.number :=
  (Js.for_of [block 40; block 40]
     (ExportPdf.addCanvasToPdf ExportPdf.no_faults three_blocks) first_page).2.

Definition three_placed : ExportPdf.St Number.number :=
  (ExportPdf.addCanvasToPdf ExportPdf.no_faults three_blocks (block 250) two_placed).2.

Definition after_title : ExportPdf.St Number.number :=
  (ExportPdf.addTitle ExportPdf.no_faults title_then_day title_240 first_page).2.

Definition after_day : ExportPdf.St Number.number :=
  (ExportPdf.addDay ExportPdf.no_faults title_then_day day_header_5 after_title).2.

(** The jsPDF script did not load. *)
Definition no_jspdf : ExportPdf.Window :=
  ExportPdf.mkWindow ExportPdf.Undefined loaded
    (Some (ExportPdf.mkContent (Some (block 40)) [])).

(** [window.jspdf] is [null]. *)
Definition null_jspdf : ExportPdf.Window :=
  ExportPdf.mkWindow ExportPdf.Null loaded
    (Some (ExportPdf.mkContent (Some (block 40)) [])).

(** [window.html2canvas] is [null]. *)
Definition null_html2canvas : ExportPdf.Window :=
  ExportPdf.mkWindow loaded ExportPdf.Null
    (Some (ExportPdf.mkContent (Some (block 40)) [])).

(** The sixth library call throws. *)
Definition sixth_call_throws : nat -> bool := fun n => bool_decide (n = 5%nat).

End Samples.

(** * Properties *)

(** ** Persistence store *)

Section PersistenceFacts.
Import Js Persistence.

Context {T : Type}.
Variable parse : string -> result T.

Lemma loadState_cases (st : Storage) (key : string) (defaultValue : T) (c : Console) :
  loadState parse st key defaultValue c =
  match st with
  | StorageDenied =>
      (Ok defaultValue, c ++ ["Failed to load state from localStorage for key: " +:+ key])
  | StorageOf items =>
      match items !! key with
      | None => (Ok defaultValue, c)
      | Some text =>
          match parse text with
          | Ok v => (Ok v, c)
          | Throw _ =>
              (Ok defaultValue, c ++ ["Failed to load state from localStorage for key: " +:+ key])
          end
      end
  end.
Proof.
  unfold loadState, try_catch, bind, getItem, console_error, modify, ret, throw.
  destruct st as [|items]; [reflexivity|].
  destruct (items !! key) as [text|]; [|reflexivity].
  destruct (parse text); reflexivity.
Qed.

(** C8. For every key and default value, [loadState] returns the stored,
    deserialized value when the key is present and its text parses; it
    returns the default when the key is missing, when deserialization
    fails, and when storage cannot be read; in no case does it throw. *)
Theorem loadState_contract (st : Storage) (key : string) (defaultValue : T) (c : Console) :
  (forall items text v,
      st = StorageOf items -> items !! key = Some text -> parse text = Ok v ->
      (loadState parse st key defaultValue c).1 = Ok v) /\
  (forall items,
      st = StorageOf items -> items !! key = None ->
      (loadState parse st key defaultValue c).1 = Ok defaultValue) /\
  (forall items text e,
      st = StorageOf items -> items !! key = Some text -> parse text = Throw e ->
      (loadState parse st key defaultValue c).1 = Ok defaultValue) /\
  (st = StorageDenied -> (loadState parse st key defaultValue c).1 = Ok defaultValue) /\
  (exists v, (loadState parse st key defaultValue c).1 = Ok v).
Proof.
  rewrite loadState_cases. repeat split.
  - intros items text v -> -> ->. reflexivity.
  - intros items -> ->. reflexivity.
  - intros items text e -> -> ->. reflexivity.
  - intros ->. reflexivity.
  - destruct st as [|items]; [by eexists|].
    destruct (items !! key) as [text|]; [|by eexists].
    destruct (parse text); by eexists.
Qed.

End PersistenceFacts.

Lemma loadState_contract_witness :
  (Persistence.loadState Samples.parse_bit Samples.storage "a" false []).1 = Js.Ok true /\
  (Persistence.loadState Samples.parse_bit Samples.storage "c" false []).1 = Js.Ok false /\
  (Persistence.loadState Samples.parse_bit Samples.storage "b" true []).1 = Js.Ok true.
Proof.
  split; [|split].
  - destruct (loadState_contract Samples.parse_bit Samples.storage "a" false []) as (H & _).
    apply (H (<["a" := "1"]> (<["b" := "{"]> ∅)) "1"); reflexivity.
  - destruct (loadState_contract Samples.parse_bit Samples.storage "c" false []) as (_ & H & _).
    apply (H (<["a" := "1"]> (<["b" := "{"]> ∅))); reflexivity.
  - destruct (loadState_contract Samples.parse_bit Samples.storage "b" true []) as (_ & _ & H & _).
    apply (H (<["a" := "1"]> (<["b" := "{"]> ∅)) "{" "SyntaxError"); reflexivity.
Defined.

(** ** Trip aggregate and snapshots *)

Section TripFacts.
Import Trip.

Context {builtins : Number.Builtins}.
Variable tpl : Template.

(** *** The store only grows *)

Lemma lookup_new (h : Heap) (o : obj) : (h ++ [o]) !! length h = Some o.
Proof. by apply list_lookup_middle. Qed.

Lemma lookup_old (h k : Heap) (l : loc) (o : obj) :
  h !! l = Some o -> (h ++ k) !! l = Some o.
Proof. apply lookup_app_l_Some. Qed.

Lemma days_at_grow h k l ds : days_at h l = Some ds -> days_at (h ++ k) l = Some ds.
Proof.
  unfold days_at. destruct (h !! l) as [o|] eqn:E; [|done].
  intros H. by rewrite (lookup_old _ k _ _ E).
Qed.

Lemma budget_at_grow h k l bs : budget_at h l = Some bs -> budget_at (h ++ k) l = Some bs.
Proof.
  unfold budget_at. destruct (h !! l) as [o|] eqn:E; [|done].
  intros H. by rewrite (lookup_old _ k _ _ E).
Qed.

Lemma contacts_at_grow h k l cs :
  contacts_at h l = Some cs -> contacts_at (h ++ k) l = Some cs.
Proof.
  unfold contacts_at. destruct (h !! l) as [o|] eqn:E; [|done].
  intros H. by rewrite (lookup_old _ k _ _ E).
Qed.

Lemma rates_at_grow h k l r : rates_at h l = Some r -> rates_at (h ++ k) l = Some r.
Proof.
  unfold rates_at. destruct (h !! l) as [o|] eqn:E; [|done].
  intros H. by rewrite (lookup_old _ k _ _ E).
Qed.

Lemma resolve_grow h k d v : resolve h d = Some v -> resolve (h ++ k) d = Some v.
Proof.
  unfold resolve. intros H.
  destruct (itinerary d) as [l|]; simpl in *.
  - destruct (days_at h l) as [ds|] eqn:E1; [|done]. simpl in H.
    rewrite (days_at_grow _ k _ _ E1). simpl.
    destruct (budget_at h (budgetItems d)) as [bs|] eqn:E2; [|done]. simpl in H.
    rewrite (budget_at_grow _ k _ _ E2). simpl.
    destruct (contacts_at h (contacts d)) as [cs|] eqn:E3; [|done]. simpl in H.
    rewrite (contacts_at_grow _ k _ _ E3). simpl.
    destruct (rates_at h (exchangeRates d)) as [r|] eqn:E4; [|done]. simpl in H.
    by rewrite (rates_at_grow _ k _ _ E4).
  - destruct (budget_at h (budgetItems d)) as [bs|] eqn:E2; [|done]. simpl in H.
    rewrite (budget_at_grow _ k _ _ E2). simpl.
    destruct (contacts_at h (contacts d)) as [cs|] eqn:E3; [|done]. simpl in H.
    rewrite (contacts_at_grow _ k _ _ E3). simpl.
    destruct (rates_at h (exchangeRates d)) as [r|] eqn:E4; [|done]. simpl in H.
    by rewrite (rates_at_grow _ k _ _ E4).
Qed.

Lemma wf_data_grow h k d : wf_data h d -> wf_data (h ++ k) d.
Proof. intros [v Hv]. exists v. by apply resolve_grow. Qed.

(** No handler overwrites a cell: the store after an event extends the
    store before it. *)
Lemma handle_heap (e : Event) (s : AppState) :
  exists k, heap (handle tpl e s) = heap s ++ k.
Proof.
  destruct e; simpl;
    unfold handleGenerate, handleGenerate_timeout, handleClearItinerary, handleSaveTrip,
      handleLoadTrip, handleDeleteTrip, handleUpdateTripName, handleAddBudgetItem,
      handleDeleteBudgetItem, handleAddContact, handleDeleteContact;
    repeat match goal with
           | |- context [if ?b then _ else _] => destruct b
           | |- context [match ?o with Some _ => _ | None => _ end] => destruct o
           end; simpl;
    rewrite <- ?app_assoc; first [by eexists | exists []; by rewrite app_nil_r].
Qed.

Lemma run_heap (es : list Event) (s : AppState) :
  exists k, heap (run tpl es s) = heap s ++ k.
Proof.
  unfold run. revert s. induction es as [|e es IH]; intros s; simpl.
  - exists []. by rewrite app_nil_r.
  - destruct (IH (handle tpl e s)) as [k Hk]. destruct (handle_heap e s) as [k' Hk'].
    exists (k' ++ k). rewrite Hk, Hk'. by rewrite app_assoc.
Qed.

(** Events on the live aggregate leave the list of saved trips alone. *)
Lemma live_event_savedTrips (e : Event) (s : AppState) :
  live_event e = true -> savedTrips (handle tpl e s) = savedTrips s.
Proof.
  destruct e; simpl; try discriminate; intros _;
    unfold handleGenerate, handleGenerate_timeout, handleClearItinerary,
      handleLoadTrip, handleAddBudgetItem,
      handleDeleteBudgetItem, handleAddContact, handleDeleteContact;
    repeat match goal with
           | |- context [if ?b then _ else _] => destruct b
           | |- context [match ?o with Some _ => _ | None => _ end] => destruct o
           end; reflexivity.
Qed.

Lemma run_live_savedTrips (es : list Event) (s : AppState) :
  Forall (fun e => live_event e = true) es -> savedTrips (run tpl es s) = savedTrips s.
Proof.
  unfold run. intros H. revert s. induction H as [|e es He _ IH]; intros s; [done|].
  simpl. rewrite IH. by apply live_event_savedTrips.
Qed.

(** *** Invariants of the saved trips

    A property of a snapshot's [data] that survives growth of the store
    holds of every saved trip after an event, if it held before and holds
    of the live aggregate whenever [handleSaveTrip] accepts it. *)
Lemma saved_trips_handle (P : Heap -> TripData -> Prop) (e : Event) (s : AppState) :
  (forall h k d, P h d -> P (h ++ k) d) ->
  Forall (fun t => P (heap s) (data t)) (savedTrips s) ->
  (nothing_to_save s = false -> P (heap s) (live s)) ->
  Forall (fun t => P (heap (handle tpl e s)) (data t)) (savedTrips (handle tpl e s)).
Proof.
  intros Hgrow Hsaved Hlive.
  destruct (live_event e) eqn:Hev.
  - rewrite (live_event_savedTrips e s Hev). destruct (handle_heap e s) as [k ->].
    eapply List.Forall_impl; [|exact Hsaved]. intros t Ht. by apply Hgrow.
  - destruct e; try discriminate; simpl.
    + unfold handleSaveTrip. destruct (nothing_to_save s) eqn:Hn; [exact Hsaved|].
      destruct promptResult as [tripName|]; [|exact Hsaved].
      destruct (falsy tripName); [exact Hsaved|]. simpl.
      apply Forall_app. split; [exact Hsaved|].
      constructor; [|constructor]. simpl. by apply Hlive.
    + unfold handleDeleteTrip. destruct confirm; [|exact Hsaved]. simpl.
      apply List.Forall_forall. intros t [Ht _]%List.filter_In.
      revert t Ht. by apply List.Forall_forall.
    + unfold handleUpdateTripName. simpl.
      apply List.Forall_forall. intros t' (t & <- & Ht)%List.in_map_iff.
      assert (P (heap s) (data t)) as HP
        by (revert t Ht; by apply List.Forall_forall).
      by destruct (bool_decide (trip_id t = tripId)).
Qed.

(** *** Well-formedness is invariant *)

Lemma wf_data_iff (h : Heap) (d : TripData) :
  wf_data h d <->
  itinerary_ok h (itinerary d) /\ is_Some (budget_at h (budgetItems d)) /\
  is_Some (contacts_at h (contacts d)) /\ is_Some (rates_at h (exchangeRates d)).
Proof.
  unfold wf_data, resolve, itinerary_ok. split.
  - intros [v Hv]. destruct (itinerary d) as [l|]; simpl in Hv.
    + destruct (days_at h l); [|done]. simpl in Hv.
      destruct (budget_at h _); [|done]. simpl in Hv.
      destruct (contacts_at h _); [|done]. simpl in Hv.
      destruct (rates_at h _); [|done]. eauto.
    + destruct (budget_at h _); [|done]. simpl in Hv.
      destruct (contacts_at h _); [|done]. simpl in Hv.
      destruct (rates_at h _); [|done]. eauto.
  - intros (Hi & [bs ->] & [cs ->] & [r ->]).
    destruct (itinerary d) as [l|]; simpl.
    + destruct Hi as [ds ->]. simpl. eauto.
    + eauto.
Qed.

Lemma days_at_new h ds k : days_at ((h ++ [ODays ds]) ++ k) (length h) = Some ds.
Proof. apply days_at_grow. unfold days_at. by rewrite lookup_new. Qed.

Lemma budget_at_new h bs k : budget_at ((h ++ [OBudget bs]) ++ k) (length h) = Some bs.
Proof. apply budget_at_grow. unfold budget_at. by rewrite lookup_new. Qed.

Lemma contacts_at_new h cs k : contacts_at ((h ++ [OContacts cs]) ++ k) (length h) = Some cs.
Proof. apply contacts_at_grow. unfold contacts_at. by rewrite lookup_new. Qed.

Lemma rates_at_new h r k : rates_at ((h ++ [ORates r]) ++ k) (length h) = Some r.
Proof. apply rates_at_grow. unfold rates_at. by rewrite lookup_new. Qed.

Lemma days_at_alloc h ds : days_at (h ++ [ODays ds]) (length h) = Some ds.
Proof. unfold days_at. by rewrite lookup_new. Qed.

Lemma budget_at_alloc h bs : budget_at (h ++ [OBudget bs]) (length h) = Some bs.
Proof. unfold budget_at. by rewrite lookup_new. Qed.

Lemma contacts_at_alloc h cs : contacts_at (h ++ [OContacts cs]) (length h) = Some cs.
Proof. unfold contacts_at. by rewrite lookup_new. Qed.

Lemma rates_at_alloc h r : rates_at (h ++ [ORates r]) (length h) = Some r.
Proof. unfold rates_at. by rewrite lookup_new. Qed.

Lemma is_Some_days_grow h k l : is_Some (days_at h l) -> is_Some (days_at (h ++ k) l).
Proof. intros [x Hx]. exists x. by apply days_at_grow. Qed.
Lemma is_Some_budget_grow h k l : is_Some (budget_at h l) -> is_Some (budget_at (h ++ k) l).
Proof. intros [x Hx]. exists x. by apply budget_at_grow. Qed.
Lemma is_Some_contacts_grow h k l :
  is_Some (contacts_at h l) -> is_Some (contacts_at (h ++ k) l).
Proof. intros [x Hx]. exists x. by apply contacts_at_grow. Qed.
Lemma is_Some_rates_grow h k l : is_Some (rates_at h l) -> is_Some (rates_at (h ++ k) l).
Proof. intros [x Hx]. exists x. by apply rates_at_grow. Qed.

Lemma itinerary_ok_grow h k it : itinerary_ok h it -> itinerary_ok (h ++ k) it.
Proof. destruct it; simpl; [apply is_Some_days_grow|done]. Qed.

Create HintDb store discriminated.
#[local] Hint Resolve is_Some_days_grow is_Some_budget_grow is_Some_contacts_grow
  is_Some_rates_grow itinerary_ok_grow : store.

(** Reading a cell just allocated, whatever was allocated after it. *)
Ltac read_new :=
  repeat first
    [ rewrite (budget_at_new _ _ [])
    | rewrite (contacts_at_new _ _ [])
    | rewrite (days_at_new _ _ [])
    | rewrite (rates_at_new _ _ [])
    | rewrite budget_at_new
    | rewrite contacts_at_new
    | rewrite days_at_new
    | rewrite rates_at_new ].

Lemma wf_live_handle (e : Event) (s : AppState) :
  wf tpl s -> wf_data (heap (handle tpl e s)) (live (handle tpl e s)).
Proof.
  intros [Hl Hs Hb Hc].
  pose proof (proj1 (wf_data_iff _ _) Hl) as (Hi & Hbu & Hco & Hra).
  apply wf_data_iff.
  destruct e; simpl;
    unfold handleGenerate, handleGenerate_timeout, handleClearItinerary, handleSaveTrip,
      handleLoadTrip, handleDeleteTrip, handleUpdateTripName, handleAddBudgetItem,
      handleDeleteBudgetItem, handleAddContact, handleDeleteContact.
  - destruct (_ || _); simpl; [done|].
    rewrite <- (app_nil_r ((_ ++ [OBudget []]) ++ [OContacts []])) at 2.
    read_new. rewrite <- app_assoc. repeat split; eauto with store.
  - simpl. rewrite <- (app_nil_r (_ ++ [ODays _])). read_new.
    rewrite app_nil_r. unfold defaultBudgetItems_loc, defaultContacts_loc in *.
    rewrite (budget_at_grow _ _ _ _ Hb), (contacts_at_grow _ _ _ _ Hc).
    repeat split; eauto with store.
  - destruct confirm; simpl; [|done].
    rewrite <- (app_nil_r ((_ ++ [OBudget []]) ++ [OContacts []])) at 2.
    read_new. rewrite <- app_assoc. repeat split; eauto with store.
  - destruct (nothing_to_save s); simpl; [done|].
    destruct promptResult as [n|]; [|done]. by destruct (falsy n).
  - destruct confirm; [|done].
    destruct (List.find _ _) as [t|] eqn:Hf; [|done]. simpl.
    apply List.find_some in Hf as [Hin _].
    assert (wf_data (heap s) (data t)) as Ht
      by (revert t Hin; by apply List.Forall_forall).
    by apply wf_data_iff in Ht.
  - by destruct confirm.
  - done.
  - simpl. rewrite <- (app_nil_r (_ ++ [OBudget _])). read_new. rewrite app_nil_r.
    repeat split; eauto with store.
  - simpl. rewrite <- (app_nil_r (_ ++ [OBudget _])). read_new. rewrite app_nil_r.
    repeat split; eauto with store.
  - simpl. rewrite <- (app_nil_r (_ ++ [OContacts _])). read_new. rewrite app_nil_r.
    repeat split; eauto with store.
  - simpl. rewrite <- (app_nil_r (_ ++ [OContacts _])). read_new. rewrite app_nil_r.
    repeat split; eauto with store.
  - done.
  - simpl. rewrite <- (app_nil_r (_ ++ [ORates _])). read_new. rewrite app_nil_r.
    repeat split; eauto with store.
  - simpl. rewrite <- (app_nil_r (_ ++ [ODays _])). read_new. rewrite app_nil_r.
    repeat split; eauto with store.
  - done.
Qed.

Lemma wf_handle (e : Event) (s : AppState) : wf tpl s -> wf tpl (handle tpl e s).
Proof.
  intros H. pose proof H as [Hl Hs Hb Hc]. split.
  - by apply wf_live_handle.
  - apply (saved_trips_handle wf_data); [apply wf_data_grow|done|done].
  - destruct (handle_heap e s) as [k ->]. by apply budget_at_grow.
  - destruct (handle_heap e s) as [k ->]. by apply contacts_at_grow.
Qed.

Lemma wf_run (es : list Event) (s : AppState) : wf tpl s -> wf tpl (run tpl es s).
Proof.
  unfold run. revert s. induction es as [|e es IH]; intros s H; [done|].
  simpl. apply IH. by apply wf_handle.
Qed.

Lemma wf_initialState : wf tpl (initialState tpl).
Proof. split; [by eexists|constructor|done|done]. Qed.

Lemma wf_handleSaveTrip (promptResult : option string) (now : Z) (s : AppState) :
  wf tpl s -> wf tpl (handleSaveTrip promptResult now s).
Proof. apply (wf_handle (SaveTrip promptResult now)). Qed.

(** [nothing_to_save] on a well-formed state: the itinerary, read through
    its reference, is [null] or the empty array. *)
Lemma nothing_to_save_value (s : AppState) (v : TripValue) :
  resolve (heap s) (live s) = Some v ->
  nothing_to_save s = true <-> (v_itinerary v = None \/ v_itinerary v = Some []).
Proof.
  unfold resolve, nothing_to_save. intros H.
  destruct (itinerary (live s)) as [l|]; simpl in H.
  - destruct (days_at (heap s) l) as [ds|]; [|done]. simpl in H.
    destruct (budget_at _ _); [|done]. destruct (contacts_at _ _); [|done].
    destruct (rates_at _ _); [|done]. simpl in H. injection H as <-. simpl.
    destruct ds as [|d ds]; simpl.
    + split; [by right|done].
    + split; [done|by intros [?|?]].
  - destruct (budget_at _ _); [|done]. destruct (contacts_at _ _); [|done].
    destruct (rates_at _ _); [|done]. simpl in H. injection H as <-. simpl.
    split; [by left|done].
Qed.

Lemma nothing_to_save_holds_plan (s : AppState) :
  wf tpl s -> nothing_to_save s = false -> holds_plan (heap s) (live s).
Proof.
  intros [[v Hv] _ _ _] Hn. pose proof (nothing_to_save_value s v Hv) as Hiff.
  unfold resolve in Hv. unfold holds_plan.
  destruct (itinerary (live s)) as [l|]; simpl in Hv.
  - destruct (days_at (heap s) l) as [ds|] eqn:E; [|done]. simpl in Hv.
    destruct (budget_at _ _); [|done]. destruct (contacts_at _ _); [|done].
    destruct (rates_at _ _); [|done]. simpl in Hv. injection Hv as <-. simpl in Hiff.
    exists l, ds. repeat split; [done|]. intros ->.
    rewrite (proj2 Hiff) in Hn; [done|by right].
  - destruct (budget_at _ _); [|done]. destruct (contacts_at _ _); [|done].
    destruct (rates_at _ _); [|done]. simpl in Hv. injection Hv as <-. simpl in Hiff.
    rewrite (proj2 Hiff) in Hn; [done|by left].
Qed.

Lemma holds_plan_grow h k d : holds_plan h d -> holds_plan (h ++ k) d.
Proof.
  intros (l & ds & H1 & H2 & H3). exists l, ds. repeat split; [done| |done].
  by apply days_at_grow.
Qed.

Lemma saved_nonempty_handle (e : Event) (s : AppState) :
  wf tpl s -> saved_nonempty s -> saved_nonempty (handle tpl e s).
Proof.
  intros Hwf Hs. apply (saved_trips_handle holds_plan); [apply holds_plan_grow|done|].
  by apply nothing_to_save_holds_plan.
Qed.

(** Every state the application reaches from a first visit is well formed
    and its saved trips all hold a plan. *)
Lemma reachable_invariant (s : AppState) :
  reachable tpl s -> wf tpl s /\ saved_nonempty s.
Proof.
  induction 1 as [|e s _ [IH1 IH2]].
  - split; [apply wf_initialState|constructor].
  - split; [by apply wf_handle|by apply saved_nonempty_handle].
Qed.

Lemma reachable_run (es : list Event) (s : AppState) :
  reachable tpl s -> reachable tpl (run tpl es s).
Proof.
  unfold run. revert s. induction es as [|e es IH]; intros s H; [done|].
  simpl. apply IH. by constructor.
Qed.

(** Installing the fields of [d] one by one installs [d]. *)
Lemma resolve_eta (h : Heap) (d : TripData) :
  resolve h (mkTripData (itinerary d) (budgetItems d) (contacts d) (currency d)
               (exchangeRates d)) = resolve h d.
Proof. reflexivity. Qed.

Lemma handleLoadTrip_found (tripId : Z) (t : SavedTrip) (s : AppState) :
  List.find (fun t => bool_decide (trip_id t = tripId)) (savedTrips s) = Some t ->
  let s' := handleLoadTrip true tripId s in
  heap s' = heap s /\ savedTrips s' = savedTrips s /\ alerts s' = alerts s /\
  live s' = data t /\ form s' = formState t.
Proof.
  intros Hf. unfold handleLoadTrip. rewrite Hf. simpl.
  by destruct (data t), (formState t).
Qed.

(** What [handleSaveTrip] shares with the live aggregate: the snapshot's
    [data] holds the very references of the state cells. *)
Lemma handleSaveTrip_shares (tripName : string) (now : Z) (s : AppState) :
  nothing_to_save s = false -> tripName <> "" ->
  handleSaveTrip (Some tripName) now s =
  alert ("Trip '" +:+ tripName +:+ "' has been saved.")
    (setSavedTrips (savedTrips s ++ [mkSavedTrip now tripName (form s) (live s)]) s).
Proof.
  intros Hn Hname. unfold handleSaveTrip, falsy. rewrite Hn.
  by rewrite bool_decide_eq_false_2.
Qed.

(** The store only grows, and the saved trips stay, also when a child
    calls a setter with a reference it holds. *)
Lemma step_heap (st : Step) (s : AppState) :
  exists k, heap (step tpl st s) = heap s ++ k.
Proof.
  destruct st as [e|v|l]; simpl; [apply handle_heap| |]; exists []; by rewrite app_nil_r.
Qed.

Lemma play_heap (steps : list Step) (s : AppState) :
  exists k, heap (play tpl steps s) = heap s ++ k.
Proof.
  unfold play. revert s. induction steps as [|st steps IH]; intros s; simpl.
  - exists []. by rewrite app_nil_r.
  - destruct (IH (step tpl st s)) as [k Hk]. destruct (step_heap st s) as [k' Hk'].
    exists (k' ++ k). rewrite Hk, Hk'. by rewrite app_assoc.
Qed.

Lemma live_step_savedTrips (st : Step) (s : AppState) :
  live_step st = true -> savedTrips (step tpl st s) = savedTrips s.
Proof. destruct st as [e|v|l]; simpl; [apply live_event_savedTrips|done|done]. Qed.

Lemma play_live_savedTrips (steps : list Step) (s : AppState) :
  Forall (fun st => live_step st = true) steps ->
  savedTrips (play tpl steps s) = savedTrips s.
Proof.
  unfold play. intros H. revert s. induction H as [|st steps Hst _ IH]; intros s; [done|].
  simpl. rewrite IH. by apply live_step_savedTrips.
Qed.

(** C1, as the code has it.  Save makes no copy: the snapshot holds the
    references of the live aggregate, and the store is as it was.  Load
    installs the references of the snapshot as the live aggregate and
    changes neither the store nor the list of saved trips.  No handler
    writes to an object of the store: whatever events then act on the live
    aggregate, and whatever references the children of [App] pass to the
    setters they hold, the store is only extended, the list of saved trips
    is the same and the data of every saved trip reads as before. *)
Theorem snapshot_reads_kept
    (s : AppState) (promptResult : option string) (now : Z) (steps : list Step) :
  wf tpl s ->
  Forall (fun st => live_step st = true) steps ->
  let s1 := handleSaveTrip promptResult now s in
  let s2 := play tpl steps s1 in
  (savedTrips s1 = savedTrips s \/
   exists t, savedTrips s1 = savedTrips s ++ [t] /\ data t = live s) /\
  heap s1 = heap s /\
  (forall tripId t,
      List.find (fun t => bool_decide (trip_id t = tripId)) (savedTrips s1) = Some t ->
      let s' := handleLoadTrip true tripId s1 in
      savedTrips s' = savedTrips s1 /\ heap s' = heap s1 /\ live s' = data t) /\
  savedTrips s2 = savedTrips s1 /\
  (exists k, heap s2 = heap s1 ++ k) /\
  Forall (fun t => is_Some (resolve (heap s1) (data t)) /\
                   resolve (heap s2) (data t) = resolve (heap s1) (data t))
         (savedTrips s1).
Proof.
  intros Hwf Hsteps s1 s2. split; [|split; [|split; [|split; [|split]]]].
  - subst s1. unfold handleSaveTrip.
    destruct (nothing_to_save s); [by left|].
    destruct promptResult as [n|]; [|by left].
    destruct (falsy n); [by left|]. right. by eexists.
  - subst s1. unfold handleSaveTrip.
    destruct (nothing_to_save s); [done|].
    destruct promptResult as [n|]; [|done]. by destruct (falsy n).
  - intros tripId t Hf s'. subst s'.
    by destruct (handleLoadTrip_found tripId t s1 Hf) as (Hh & Hsv & _ & Hl & _).
  - by apply play_live_savedTrips.
  - apply play_heap.
  - pose proof (wf_handleSaveTrip promptResult now s Hwf) as [_ Hs _ _].
    fold s1 in Hs. eapply List.Forall_impl; [|exact Hs].
    intros t [v Hv]. split; [by eexists|].
    subst s2. destruct (play_heap steps s1) as [k ->].
    rewrite Hv. by apply resolve_grow.
Qed.

(** C4. Round trip: restoring a saved trip and saving again appends a
    snapshot whose data reads as the data of the restored one. *)
Theorem restore_then_save_roundtrip
    (s : AppState) (tripId : Z) (tripName : string) (now : Z) :
  wf tpl s -> saved_nonempty s ->
  In tripId (List.map trip_id (savedTrips s)) ->
  tripName <> "" ->
  let s1 := handleLoadTrip true tripId s in
  let s2 := handleSaveTrip (Some tripName) now s1 in
  exists t t' v,
    List.find (fun t => bool_decide (trip_id t = tripId)) (savedTrips s) = Some t /\
    savedTrips s2 = savedTrips s ++ [t'] /\
    resolve (heap s) (data t) = Some v /\
    resolve (heap s2) (data t') = Some v.
Proof.
  intros Hwf Hne Hin Hname s1 s2.
  destruct (List.find (fun t => bool_decide (trip_id t = tripId)) (savedTrips s))
    as [t|] eqn:Hf.
  2:{ apply List.in_map_iff in Hin as (t & Hid & Ht).
      pose proof (List.find_none _ _ Hf t Ht) as Hb. simpl in Hb.
      by rewrite bool_decide_eq_true_2 in Hb. }
  pose proof (handleLoadTrip_found tripId t s Hf) as (Hh & Hsv & _ & Hl & Hfm).
  fold s1 in Hh, Hsv, Hl, Hfm.
  apply List.find_some in Hf as [Ht _].
  pose proof (proj1 (List.Forall_forall _ _) Hne t Ht) as (l & ds & Hi & Hd & Hds).
  pose proof (proj1 (List.Forall_forall _ _) (wf_saved _ _ Hwf) t Ht) as [v Hv].
  assert (nothing_to_save s1 = false) as Hn.
  { unfold nothing_to_save. rewrite Hl, Hh, Hi, Hd.
    apply bool_decide_eq_false_2. by destruct ds. }
  exists t, (mkSavedTrip now tripName (form s1) (live s1)), v.
  subst s2. rewrite (handleSaveTrip_shares _ _ _ Hn Hname). simpl.
  rewrite Hsv, Hl, Hh. done.
Qed.

(** C5, as the code has it.  On a null or empty itinerary save shows the
    error and changes nothing else: no saved trip is created.  Otherwise,
    when the prompt returns a non-empty name, save appends exactly one
    saved trip to the end of the collection; its id is the current
    timestamp, its data reads as the live aggregate. *)
Theorem save_rejects_or_appends
    (s : AppState) (v : TripValue) (promptResult : option string) (now : Z) :
  resolve (heap s) (live s) = Some v ->
  let s' := handleSaveTrip promptResult now s in
  ((v_itinerary v = None \/ v_itinerary v = Some []) ->
     s' = alert "There's no itinerary to save." s /\ savedTrips s' = savedTrips s) /\
  (~ (v_itinerary v = None \/ v_itinerary v = Some []) ->
     forall tripName, promptResult = Some tripName -> tripName <> "" ->
     exists t, savedTrips s' = savedTrips s ++ [t] /\
               trip_id t = now /\ name t = tripName /\ formState t = form s /\
               resolve (heap s') (data t) = Some v).
Proof.
  intros Hv s'. pose proof (nothing_to_save_value s v Hv) as Hn. split.
  - intros H. apply Hn in H.
    subst s'. unfold handleSaveTrip. by rewrite H.
  - intros H tripName -> Hname.
    assert (nothing_to_save s = false) as Hf
      by (destruct (nothing_to_save s); [by destruct H; apply Hn|done]).
    subst s'. rewrite (handleSaveTrip_shares _ _ _ Hf Hname). simpl. by eexists.
Qed.

(** C10. With a plan in place, a cancelled prompt or an empty name makes
    save do nothing at all: no snapshot, the saved trips as they were, no
    alert and no error. *)
Theorem save_cancelled_is_noop
    (s : AppState) (v : TripValue) (ds : list Day) (promptResult : option string) (now : Z) :
  resolve (heap s) (live s) = Some v ->
  v_itinerary v = Some ds -> ds <> [] ->
  promptResult = None \/ promptResult = Some "" ->
  handleSaveTrip promptResult now s = s.
Proof.
  intros Hv Hi Hds Hp. unfold handleSaveTrip.
  pose proof (nothing_to_save_value s v Hv) as Hn. rewrite Hi in Hn.
  destruct (nothing_to_save s).
  - destruct (proj1 Hn eq_refl) as [?|[=]]; [done|]. by subst.
  - by destruct Hp as [-> | ->].
Qed.

(** *** Exchange rates *)

Lemma rate_known_carried (h h' : Heap) (d d' : TripData) :
  (exists k, h' = h ++ k) ->
  currency d' = currency d -> exchangeRates d' = exchangeRates d ->
  rate_known h d -> rate_known h' d'.
Proof.
  intros [k ->] Hc Hr (r & Hat & Hin). exists r. rewrite Hc, Hr.
  split; [by apply rates_at_grow|done].
Qed.

Lemma rate_known_grow h k d : rate_known h d -> rate_known (h ++ k) d.
Proof. apply rate_known_carried; eauto. Qed.

(** C6, as the code has it.  The setters do no validation.  The rates
    mapping has an entry for the selected currency after generate, clear,
    load trip and every other handler of [App], and after [setCurrency]
    and [setExchangeRates] when the value passed keeps it so
    ([keeps_rates]): the invariant, of the live aggregate and of every
    snapshot, is preserved by each such event. *)
Theorem rates_complete_preserved (e : Event) (s : AppState) :
  rates_complete s -> keeps_rates s e -> rates_complete (handle tpl e s).
Proof.
  intros [Hlive Hsaved] Hkeep. split.
  - destruct e;
      try (apply (rate_known_carried (heap s) _ (live s)); [apply handle_heap| | |done];
           simpl;
           unfold handleGenerate, handleGenerate_timeout, handleClearItinerary,
             handleSaveTrip, handleDeleteTrip, handleUpdateTripName, handleAddBudgetItem,
             handleDeleteBudgetItem, handleAddContact, handleDeleteContact;
           repeat match goal with
                  | |- context [if ?b then _ else _] => destruct b
                  | |- context [match ?o with Some _ => _ | None => _ end] => destruct o
                  end; reflexivity).
    + simpl. unfold handleLoadTrip. destruct confirm; [|done].
      destruct (List.find _ _) as [t|] eqn:Hf; [|done]. simpl.
      apply List.find_some in Hf as [Hin _].
      exact (proj1 (List.Forall_forall _ _) Hsaved t Hin).
    + simpl in *. destruct Hkeep as (r & Hr & Hc). by exists r.
    + simpl in *. exists r. by rewrite rates_at_alloc.
  - apply (saved_trips_handle rate_known); [apply rate_known_grow|done|done].
Qed.

(** *** Generate *)

Lemma planWithIds_lookup (days : list Day) (getTime : nat -> nat -> Z) (i : nat) (d : Day) :
  days !! i = Some d ->
  exists d', planWithIds days getTime !! i = Some d' /\
             day d' = day d /\
             length (activities d') = length (activities d) /\
             forall index a, activities d !! index = Some a ->
               activities d' !! index =
               Some (mkActivity
                       ("activity-" +:+ Number.Number_toString (day d) +:+ "-"
                          +:+ pretty index +:+ "-" +:+ pretty (getTime i index))
                       (time a) (title a) (description a)).
Proof.
  intros Hd. unfold planWithIds. rewrite list_lookup_imap, Hd. simpl.
  eexists. split; [reflexivity|]. simpl. split; [done|]. split.
  - by rewrite length_imap.
  - intros index a Ha. by rewrite list_lookup_imap, Ha.
Qed.

(** C9. With the required fields filled in, generate empties the live
    aggregate at once (itinerary null, no budget items, no contacts,
    loading on), before the timer fires.  When it fires, the itinerary
    becomes a new array with the template's days, one for one and in
    order: each has the day number of the template's day and its
    activities, one for one and in order, with the template's time, title
    and description and with the id [activity-{day}-{index}-{time}]; the
    budget items and contacts become the template's defaults. *)
Theorem generate_clears_then_installs (s : AppState) (getTime : nat -> nat -> Z) :
  wf tpl s ->
  destination (form s) <> "" -> startDate (form s) <> "" -> endDate (form s) <> "" ->
  let s1 := handleGenerate s in
  let s2 := handleGenerate_timeout tpl getTime s1 in
  (itinerary (live s1) = None /\
   budget_at (heap s1) (budgetItems (live s1)) = Some [] /\
   contacts_at (heap s1) (contacts (live s1)) = Some [] /\
   isLoading s1 = true /\ error s1 = None) /\
  ((exists l ds,
      itinerary (live s2) = Some l /\ days_at (heap s2) l = Some ds /\
      length ds = length (polishedTemplate_itinerary tpl) /\
      forall i d, polishedTemplate_itinerary tpl !! i = Some d ->
        exists d', ds !! i = Some d' /\
                   day d' = day d /\
                   length (activities d') = length (activities d) /\
                   forall index a, activities d !! index = Some a ->
                     activities d' !! index =
                     Some (mkActivity
                             ("activity-" +:+ Number.Number_toString (day d) +:+ "-"
                                +:+ pretty index +:+ "-" +:+ pretty (getTime i index))
                             (time a) (title a) (description a))) /\
   budget_at (heap s2) (budgetItems (live s2)) = Some (defaultBudgetItems tpl) /\
   contacts_at (heap s2) (contacts (live s2)) = Some (defaultContacts tpl) /\
   isLoading s2 = false).
Proof.
  intros Hwf Hd Hs He s1 s2.
  assert (s1 = setContacts (length (heap s ++ [OBudget []]))
                 (new (OContacts [])
                    (setBudgetItems (length (heap s))
                       (new (OBudget [])
                          (setItinerary None (setError None (setIsLoading true s)))).2)).2)
    as Hs1.
  { subst s1. unfold handleGenerate, falsy.
    by rewrite !bool_decide_eq_false_2 by done. }
  split.
  - rewrite Hs1. simpl. rewrite contacts_at_alloc, budget_at_new. done.
  - subst s2. unfold handleGenerate_timeout. simpl.
    unfold defaultBudgetItems_loc, defaultContacts_loc.
    destruct (handle_heap Generate s) as [k Hk]. simpl in Hk. fold s1 in Hk.
    rewrite Hk, <- !app_assoc.
    rewrite (budget_at_grow _ _ _ _ (wf_budget_const _ _ Hwf)).
    rewrite (contacts_at_grow _ _ _ _ (wf_contacts_const _ _ Hwf)).
    split; [|done].
    exists (length (heap s ++ k)),
           (planWithIds (polishedTemplate_itinerary tpl) getTime).
    split; [reflexivity|]. split; [by rewrite app_assoc, days_at_alloc|].
    split; [unfold planWithIds; by rewrite length_imap|].
    intros i d. apply planWithIds_lookup.
Qed.

End TripFacts.

(** *** The properties on the sample trip *)

Section TripSamples.
Import Trip Samples.

(** Tactic: well-formedness of a concrete state, by evaluation. *)
Ltac eval_wf :=
  split;
    [ eexists; vm_compute; reflexivity
    | repeat constructor; eexists; vm_compute; reflexivity
    | reflexivity
    | reflexivity ].

Lemma snapshot_reads_kept_witness :
  wf tpl planned /\
  Forall (fun st => live_step st = true) shared_edits /\
  savedTrips (play tpl shared_edits with_trip) = savedTrips with_trip /\
  Forall (fun t => is_Some (resolve (heap with_trip) (data t)) /\
                   resolve (heap (play tpl shared_edits with_trip)) (data t)
                   = resolve (heap with_trip) (data t))
         (savedTrips with_trip).
Proof.
  assert (wf tpl planned) as Hwf by eval_wf.
  assert (Forall (fun st => live_step st = true) shared_edits) as Hsteps
    by (repeat constructor).
  split; [exact Hwf|]. split; [exact Hsteps|].
  destruct (snapshot_reads_kept tpl planned (Some "Tokyo") 1700000000500 shared_edits
              Hwf Hsteps) as (_ & _ & _ & Hsaved & _ & Hreads).
  split; [exact Hsaved|exact Hreads].
Defined.

(** C1 as the spec words it fails: the snapshot is not a copy.  Its data
    are the references of the live aggregate, so a write to the array of
    days through the reference of the live itinerary, which leaves the
    list of saved trips alone, changes what the snapshot reads. *)
Lemma snapshot_not_a_copy_counterexample :
  exists t l,
    savedTrips with_trip = [t] /\ data t = live with_trip /\
    itinerary (live with_trip) = Some l /\
    savedTrips (overwrite l (ODays []) with_trip) = [t] /\
    (v_itinerary <$> resolve (heap with_trip) (data t))
      = Some (Some (planWithIds (polishedTemplate_itinerary tpl)
                      (fun _ _ => 1700000000000%Z))) /\
    (v_itinerary <$> resolve (heap (overwrite l (ODays []) with_trip)) (data t))
      = Some (Some []).
Proof.
  exists (mkSavedTrip 1700000000500 "Tokyo" (form planned) (live planned)), 7%nat.
  repeat (split; [vm_compute; reflexivity|]). vm_compute. reflexivity.
Qed.

Lemma restore_then_save_roundtrip_witness :
  exists t t' v,
    List.find (fun t => bool_decide (trip_id t = 1700000000500%Z)) (savedTrips with_trip)
      = Some t /\
    savedTrips saved_again = savedTrips with_trip ++ [t'] /\
    resolve (heap with_trip) (data t) = Some v /\
    resolve (heap saved_again) (data t') = Some v.
Proof.
  apply (restore_then_save_roundtrip tpl with_trip 1700000000500 "Tokyo, again"
           1700000000700).
  - eval_wf.
  - constructor; [|constructor]. do 2 eexists.
    split; [reflexivity|]. split; [vm_compute; reflexivity|discriminate].
  - simpl. left. reflexivity.
  - discriminate.
Defined.

Lemma save_rejects_or_appends_witness :
  exists v t,
    resolve (heap planned) (live planned) = Some v /\
    savedTrips (handleSaveTrip (Some "Tokyo") 1700000000500 planned)
      = savedTrips planned ++ [t] /\
    trip_id t = 1700000000500%Z /\ name t = "Tokyo".
Proof.
  destruct (resolve (heap planned) (live planned)) as [v|] eqn:Hv; [|discriminate].
  destruct (save_rejects_or_appends planned v (Some "Tokyo") 1700000000500 Hv)
    as [_ Happend].
  destruct (Happend) with (tripName := "Tokyo") as (t & H1 & H2 & H3 & _).
  - vm_compute in Hv. injection Hv as <-. simpl. intros [H|H]; discriminate.
  - reflexivity.
  - discriminate.
  - exists v, t. repeat split; assumption.
Defined.

(** C5 as the spec words it fails: with a plan in place and the prompt
    cancelled, save appends nothing. *)
Lemma save_appends_counterexample :
  (exists v d ds, resolve (heap planned) (live planned) = Some v /\
                  v_itinerary v = Some (d :: ds)) /\
  savedTrips (handleSaveTrip None 1700000000500 planned) = savedTrips planned /\
  ~ exists t, savedTrips (handleSaveTrip None 1700000000500 planned)
              = savedTrips planned ++ [t].
Proof.
  split; [|split].
  - vm_compute. do 3 eexists. split; reflexivity.
  - reflexivity.
  - intros [t Ht]. vm_compute in Ht. discriminate.
Qed.

Lemma save_cancelled_is_noop_witness :
  handleSaveTrip (Some "") 1700000000500 planned = planned /\
  handleSaveTrip None 1700000000500 planned = planned.
Proof.
  destruct (resolve (heap planned) (live planned)) as [v|] eqn:Hv; [|discriminate].
  destruct (v_itinerary v) as [ds|] eqn:Hi;
    [|vm_compute in Hv; injection Hv as <-; discriminate].
  assert (ds <> []) as Hds
    by (vm_compute in Hv; injection Hv as <-; injection Hi as <-; discriminate).
  split.
  - apply (save_cancelled_is_noop planned v ds (Some "") 1700000000500 Hv Hi Hds).
    by right.
  - apply (save_cancelled_is_noop planned v ds None 1700000000500 Hv Hi Hds).
    by left.
Defined.

Lemma rates_complete_with_trip : rates_complete with_trip.
Proof.
  split; [|constructor; [|constructor]];
    (exists defaultRates; split; [reflexivity|by eexists]).
Qed.

Lemma rates_complete_preserved_witness :
  rates_complete (handle tpl (CurrencyChange PLN) with_trip) /\
  rates_complete
    (handle tpl (RatesChange (<[USD := 1%float]> (<[EUR := 0.9375%float]> ∅))) with_trip) /\
  rates_complete (handle tpl (LoadTrip true 1700000000500) with_trip).
Proof.
  split; [|split].
  - apply (rates_complete_preserved tpl (CurrencyChange PLN) with_trip
             rates_complete_with_trip).
    exists defaultRates. split; [reflexivity|by eexists].
  - apply (rates_complete_preserved tpl _ with_trip rates_complete_with_trip).
    by eexists.
  - apply (rates_complete_preserved tpl _ with_trip rates_complete_with_trip).
    exact I.
Defined.

(** C6 as the spec words it fails: [setExchangeRates] installs a mapping
    without the selected currency and the invariant is gone. *)
Lemma rates_invariant_counterexample :
  rate_known (heap (initialState tpl)) (live (initialState tpl)) /\
  currency (live rates_replaced) = USD /\
  rates_at (heap rates_replaced) (exchangeRates (live rates_replaced)) = Some euro_only /\
  euro_only !! USD = None /\
  ~ rate_known (heap rates_replaced) (live rates_replaced).
Proof.
  repeat split.
  - exists defaultRates. split; [reflexivity|by eexists].
  - intros (r & Hr & Hin). vm_compute in Hr. injection Hr as <-.
    vm_compute in Hin. by destruct Hin.
Qed.

Lemma generate_clears_then_installs_witness :
  (itinerary (live generating) = None /\
   budget_at (heap generating) (budgetItems (live generating)) = Some [] /\
   contacts_at (heap generating) (contacts (live generating)) = Some [] /\
   isLoading generating = true /\ error generating = None) /\
  ((exists l ds,
      itinerary (live generated) = Some l /\ days_at (heap generated) l = Some ds /\
      length ds = length (polishedTemplate_itinerary tpl) /\
      forall i d, polishedTemplate_itinerary tpl !! i = Some d ->
        exists d', ds !! i = Some d' /\
                   day d' = day d /\
                   length (activities d') = length (activities d) /\
                   forall index a, activities d !! index = Some a ->
                     activities d' !! index =
                     Some (mkActivity
                             ("activity-" +:+ Number.Number_toString (day d) +:+ "-"
                                +:+ pretty index +:+ "-" +:+ pretty (later i index))
                             (time a) (title a) (description a))) /\
   budget_at (heap generated) (budgetItems (live generated)) = Some (defaultBudgetItems tpl) /\
   contacts_at (heap generated) (contacts (live generated)) = Some (defaultContacts tpl) /\
   isLoading generated = false).
Proof.
  unfold generated, generating.
  apply (generate_clears_then_installs tpl with_trip later).
  - eval_wf.
  - discriminate.
  - discriminate.
  - discriminate.
Defined.

(** The plan installed on the sample template, ids included. *)
Example generated_plan :
  (l ← itinerary (live generated); days_at (heap generated) l) =
  Some [mkDay 1%float
          [mkActivity "activity-1-0-1700000009000" "09:00" "Senso-ji" "Temple visit";
           mkActivity "activity-1-1-1700000009000" "12:30" "Ramen" "Lunch in Asakusa"];
        mkDay 2%float
          [mkActivity "activity-2-0-1700000009000" "10:00" "Akihabara" "Arcades"]].
Proof. vm_compute. reflexivity. Qed.

(** The sample states are states of the application. *)
Lemma reachable_with_trip : reachable tpl with_trip.
Proof. apply (reachable_step tpl (SaveTrip _ _)), reachable_run. constructor. Qed.

End TripSamples.

(** ** Reasoning about computations *)

Section MonadFacts.
Import Js.

Context {S : Type}.
Implicit Types P Q R : S -> Prop.

Lemma always_ret {A} P (a : A) : always P (ret a).
Proof. by intros s H. Qed.

Lemma always_throw {A} P (e : string) : always P (@throw S A e).
Proof. by intros s H. Qed.

Lemma always_gets {A} P (f : S -> A) : always P (gets f).
Proof. by intros s H. Qed.

Lemma always_modify P (f : S -> S) : (forall s, P s -> P (f s)) -> always P (modify f).
Proof. intros Hf s H. by apply Hf. Qed.

Lemma always_bind {A B} P (m : M S A) (f : A -> M S B) :
  always P m -> (forall a, always P (f a)) -> always P (bind m f).
Proof.
  intros Hm Hf s H. unfold bind. specialize (Hm s H).
  destruct (m s) as [[a|e] s1]; simpl in *; [by apply Hf|done].
Qed.

Lemma always_try_catch {A} P (body : M S A) (handler : string -> M S A) :
  always P body -> (forall e, always P (handler e)) -> always P (try_catch body handler).
Proof.
  intros Hb Hh s H. unfold try_catch. specialize (Hb s H).
  destruct (body s) as [[a|e] s1]; simpl in *; [done|by apply Hh].
Qed.

Lemma always_try_finally {A} P (body : M S A) (fin : M S unit) :
  always P body -> always P fin -> always P (try_finally body fin).
Proof.
  intros Hb Hf s H. unfold try_finally. specialize (Hb s H).
  destruct (body s) as [r s1]; simpl in *. specialize (Hf s1 Hb).
  by destruct (fin s1) as [[[]|e] s2].
Qed.

Lemma always_for_of {A} P (xs : list A) (body : A -> M S unit) :
  (forall x, always P (body x)) -> always P (for_of xs body).
Proof.
  intros Hb. induction xs as [|x xs IH]; simpl.
  - apply always_ret.
  - apply always_bind; [apply Hb|by intros _].
Qed.




Lemma on_ok_weaken {A} P P' Q Q' (m : M S A) :
  on_ok P m Q -> (forall s, P' s -> P s) -> (forall s, Q s -> Q' s) -> on_ok P' m Q'.
Proof. intros Hm HP HQ s a s' H E. apply HQ, (Hm s a s'); [by apply HP|done]. Qed.






(** Inversion of a normal exit *)
Lemma bind_ok {A B} (m : M S A) (f : A -> M S B) (s s' : S) (b : B) :
  bind m f s = (Ok b, s') -> exists a s1, m s = (Ok a, s1) /\ f a s1 = (Ok b, s').
Proof.
  unfold bind. destruct (m s) as [[a|e] s1]; [|done]. intros H. by exists a, s1.
Qed.

Lemma gets_ok {A} (f : S -> A) (s s' : S) (a : A) :
  gets f s = (Ok a, s') -> a = f s /\ s' = s.
Proof. by intros [= <- <-]. Qed.

Lemma modify_ok (f : S -> S) (s s' : S) (a : unit) :
  modify f s = (Ok a, s') -> s' = f s.
Proof. by intros [= _ <-]. Qed.

Lemma ret_ok {A} (a b : A) (s s' : S) : ret a s = (Ok b, s') -> b = a /\ s' = s.
Proof. by intros [= <- <-]. Qed.

End MonadFacts.

(** ** Export pipeline *)

Section LibraryCalls.
Import Js ExportPdf.

Context {N : Type}.
Variable faults : nat -> bool.

Lemma always_call (P : St N -> Prop) (what : string) :
  (forall s n, P s -> P (setCalls n s)) -> always P (call faults what).
Proof. intros HP s H. unfold call. destruct (faults (calls s)); simpl; by apply HP. Qed.

Lemma call_ok (what : string) (s s' : St N) (a : unit) :
  call faults what s = (Ok a, s') -> faults (calls s) = false /\ s' = setCalls (S (calls s)) s.
Proof. unfold call. destruct (faults (calls s)); [done|]. by intros [= _ <-]. Qed.

Lemma always_call_global (P : St N -> Prop) (g : Global) (what : string) :
  (forall s n, P s -> P (setCalls n s)) -> always P (call_global faults g what).
Proof.
  intros HP. unfold call_global. destruct (is_usable g); [by apply always_call|].
  apply always_throw.
Qed.

Lemma call_global_ok (g : Global) (what : string) (s s' : St N) (a : unit) :
  call_global faults g what s = (Ok a, s') ->
  is_usable g = true /\ s' = setCalls (S (calls s)) s.
Proof.
  unfold call_global. destruct (is_usable g); [|done].
  intros H. apply call_ok in H as [_ ->]. done.
Qed.



End LibraryCalls.

(** Tactic: take apart a normal exit of a sequence of primitives. *)
Ltac on_exit :=
  repeat match goal with
    | H : Js.bind _ _ _ = (Js.Ok _, _) |- _ =>
        let a := fresh "a" in let s1 := fresh "s" in let H1 := fresh "H" in
        apply bind_ok in H as (a & s1 & H1 & H)
    | H : ExportPdf.call _ _ _ = (Js.Ok _, _) |- _ => apply call_ok in H as [_ ->]
    | H : ExportPdf.call_global _ _ _ _ = (Js.Ok _, _) |- _ =>
        apply call_global_ok in H as [_ ->]
    | H : Js.gets _ _ = (Js.Ok _, _) |- _ => apply gets_ok in H as [-> ->]
    | H : Js.modify _ _ = (Js.Ok _, _) |- _ => apply modify_ok in H as ->
    | H : Js.ret _ _ = (Js.Ok _, _) |- _ => apply ret_ok in H as [-> ->]
    end.

(** Tactic: a property kept by every primitive is kept by a computation
    built from them. *)
Ltac kept :=
  repeat first
    [ apply always_ret
    | apply always_gets
    | apply always_bind; [|intros ?]
    | apply always_for_of; intros ?
    | apply always_call; intros ? ? ?; simpl; assumption
    | apply always_call_global; intros ? ? ?; simpl; assumption
    | apply always_modify; intros ? ?; simpl; assumption
    | match goal with
      | |- Js.always _ (if ?b then _ else _) => destruct b
      | |- Js.always _ (match ?o with Some _ => _ | None => _ end) => destruct o
      end ].


Section ExportFacts.
Import Js ExportPdf Number.

Context {N : Type} {num : Num N}.
Variable faults : nat -> bool.

(** Nothing in the [try] block dispatches an event. *)
Lemma addCanvasToPdf_dispatched (d : list string) (w : Window) (element : Element) :
  always (fun s => dispatched s = d) (addCanvasToPdf faults w element).
Proof. unfold addCanvasToPdf, addPage, addImage. kept. Qed.

Lemma addDay_dispatched (d : list string) (w : Window) (dayEl : DayElement) :
  always (fun s => dispatched s = d) (addDay faults w dayEl).
Proof.
  unfold addDay, addPage. kept; apply addCanvasToPdf_dispatched.
Qed.

Lemma stampPages_dispatched (d : list string) (pageCount i n : nat) :
  always (fun s => dispatched s = d) (stampPages faults pageCount i n).
Proof.
  revert i. induction n as [|n IH]; intros i; simpl; [apply always_ret|].
  unfold setPage, text. kept. apply IH.
Qed.

Lemma assemble_dispatched (d : list string) (w : Window) (content : Content) :
  always (fun s => dispatched s = d) (assemble faults w content).
Proof.
  unfold assemble, addTitle, save.
  kept; first [apply addCanvasToPdf_dispatched | apply addDay_dispatched
              | apply stampPages_dispatched].
Qed.

(** A run that enters export mode: what remains of [generatePdf]. *)
Lemma generatePdf_verified (w : Window) :
  verified w = true ->
  exists content,
    itineraryContent w = Some content /\
    generatePdf faults w =
    (modify (setIsGeneratingPdf true) ;;
     modify (setError None) ;;
     dispatchEvent "generatePdfStart" ;;
     try_finally
       (try_catch
          (assemble faults w content)
          (fun err =>
             console_error ("Error generating PDF: " +:+ err) ;;
             modify (setError
               (Some "Failed to generate the PDF. An unexpected error occurred."))))
       (dispatchEvent "generatePdfEnd" ;;
        modify (setIsGeneratingPdf false)))%js.
Proof.
  unfold verified, generatePdf.
  destruct (jspdf w) as [| |u], (html2canvas w) as [| |u'],
    (itineraryContent w) as [content|]; simpl; try discriminate;
    intros _; by exists content.
Qed.

(** A run that enters export mode returns to its caller. *)
Lemma generatePdf_returns (w : Window) (s : St N) :
  verified w = true -> (generatePdf faults w s).1 = Ok tt.
Proof.
  intros Hv. destruct (generatePdf_verified w Hv) as (content & _ & ->).
  unfold bind, modify, dispatchEvent, try_finally, try_catch, console_error. simpl.
  by destruct (assemble faults w content _) as [[[]|e] s1].
Qed.

Lemma generatePdf_dispatched (w : Window) (s : St N) :
  dispatched (generatePdf faults w s).2 =
  dispatched s ++ (if verified w then ["generatePdfStart"; "generatePdfEnd"] else []).
Proof.
  destruct (verified w) eqn:Hv.
  - destruct (generatePdf_verified w Hv) as (content & _ & ->).
    unfold bind, modify, dispatchEvent, try_finally, try_catch, console_error. simpl.
    pose proof (assemble_dispatched (dispatched s ++ ["generatePdfStart"]) w content
                  (setDispatched (dispatched s ++ ["generatePdfStart"])
                     (setError None (setIsGeneratingPdf true s))) eq_refl) as H.
    destruct (assemble faults w content _) as [[[]|e] s1]; simpl in *;
      rewrite H, <- app_assoc; done.
  - rewrite app_nil_r. revert Hv. unfold verified, generatePdf.
    destruct (jspdf w) as [| |u], (html2canvas w) as [| |u'],
      (itineraryContent w) as [content|]; simpl; done.
Qed.

(** C3, as the code has it.  A run that passes both verification steps
    and the read of [window.jspdf] between them dispatches
    [generatePdfStart] and then, whether the [try] block completes or
    throws at any library call, [generatePdfEnd] exactly once, and nothing
    else, and it returns to its caller; every other run, one that aborts
    at a verification step or throws at that read, dispatches nothing. *)
Theorem export_end_signal (w : Window) (s : St N) :
  (verified w = true -> (generatePdf faults w s).1 = Ok tt) /\
  dispatched (generatePdf faults w s).2 =
    dispatched s ++ (if verified w then ["generatePdfStart"; "generatePdfEnd"] else []) /\
  fired "generatePdfEnd" (generatePdf faults w s).2 =
    (fired "generatePdfEnd" s + (if verified w then 1 else 0))%nat.
Proof.
  split; [apply generatePdf_returns|]. split; [apply generatePdf_dispatched|].
  unfold fired. rewrite generatePdf_dispatched, count_occ_app.
  by destruct (verified w).
Qed.

(** *** The paginator *)

(** A normal exit of [addCanvasToPdf]: one image was added, of the height
    of the block, on a new page at the top margin when the block does not
    fit below the cursor of a page that has content, at the cursor of the
    current page otherwise. *)
Lemma addCanvasToPdf_ok (w : Window) (element : Element) (s s' : St N) :
  addCanvasToPdf faults w element s = (Ok tt, s') ->
  let h := imgHeight element in
  (does_not_fit (yPos s) h = true /\
   pdf s' = image_added MARGIN h (page_added (pdf s)) /\
   yPos s' = (MARGIN + (h + of_Z 2))%num) \/
  (does_not_fit (yPos s) h = false /\
   pdf s' = image_added (yPos s) h (pdf s) /\
   yPos s' = (yPos s + (h + of_Z 2))%num).
Proof.
  intros H h. unfold addCanvasToPdf, addPage, addImage in H. fold h in H.
  apply bind_ok in H as (? & s1 & H1 & H). apply call_global_ok in H1 as [_ ->].
  apply bind_ok in H as (? & s1 & H1 & H). apply call_ok in H1 as [_ ->].
  apply bind_ok in H as (? & s1 & H1 & H). apply call_ok in H1 as [_ ->].
  apply bind_ok in H as (y & s1 & H1 & H). apply gets_ok in H1 as [-> ->].
  apply bind_ok in H as (? & s1 & H1 & H). simpl in H1.
  fold (does_not_fit (yPos s) h) in H1.
  destruct (does_not_fit (yPos s) h) eqn:E.
  - on_exit. left. done.
  - on_exit. right. done.
Qed.


(** A normal exit of the body of the loop over the days: the page break
    of the header estimate, then the day's blocks one by one. *)
Lemma addDay_ok (w : Window) (dayEl : DayElement) (s s' : St N) :
  addDay faults w dayEl s = (Ok tt, s') ->
  exists s0,
    for_of (day_blocks dayEl) (addCanvasToPdf faults w) s0 = (Ok tt, s') /\
    ((header_may_not_fit (yPos s) = true /\
      pdf s0 = page_added (pdf s) /\ yPos s0 = MARGIN) \/
     (header_may_not_fit (yPos s) = false /\ pdf s0 = pdf s /\ yPos s0 = yPos s)).
Proof.
  intros H. unfold addDay in H.
  apply bind_ok in H as (y & s1 & H1 & H). apply gets_ok in H1 as [-> ->].
  apply bind_ok in H as ([] & s0 & H1 & H).
  assert (for_of (day_blocks dayEl) (addCanvasToPdf faults w) s0 = (Ok tt, s')) as Hblocks.
  { unfold day_blocks. destruct (header dayEl) as [h|]; simpl; exact H. }
  exists s0. split; [exact Hblocks|].
  fold (header_may_not_fit (yPos s)) in H1.
  destruct (header_may_not_fit (yPos s)) eqn:E.
  - unfold addPage in H1.
    apply bind_ok in H1 as (? & s1 & H1 & H2). apply modify_ok in H2 as ->.
    apply bind_ok in H1 as (? & s2 & H1 & H2). apply modify_ok in H2 as ->.
    apply call_ok in H1 as [_ ->]. left. by repeat split.
  - apply ret_ok in H1 as [_ ->]. right. by repeat split.
Qed.




End ExportFacts.

(** C2, as the code has it, in any arithmetic and so in binary64.
    [addCanvasToPdf] starts a new page, with the cursor back at the top
    margin, exactly when the block does not fit below the cursor
    ([cursorY + h > 282]) of a page that has content ([cursorY > 15]);
    otherwise it puts the block at the cursor.  Besides, before the blocks
    of each day the pipeline itself starts a new page when
    [cursorY + 20 > 282], whatever the height of the next block.  For
    blocks of heights 40, 40 and 250 the first two are on page 1 (at 15 and
    57) and the third starts page 2 at 15. *)
Theorem height_fit_rule {N : Type} {num : Number.Num N} (faults : nat -> bool)
    (w : ExportPdf.Window) :
  (forall element (s s' : ExportPdf.St N),
      ExportPdf.addCanvasToPdf faults w element s = (Js.Ok tt, s') ->
      let h := ExportPdf.imgHeight element in
      (ExportPdf.does_not_fit (ExportPdf.yPos s) h = true <->
       ExportPdf.numberOfPages (ExportPdf.pdf s')
       = S (ExportPdf.numberOfPages (ExportPdf.pdf s))) /\
      (ExportPdf.does_not_fit (ExportPdf.yPos s) h = true ->
         ExportPdf.pdf s'
         = ExportPdf.image_added ExportPdf.MARGIN h (ExportPdf.page_added (ExportPdf.pdf s)) /\
         ExportPdf.yPos s' = (ExportPdf.MARGIN + (h + Number.of_Z 2))%num) /\
      (ExportPdf.does_not_fit (ExportPdf.yPos s) h = false ->
         ExportPdf.pdf s' = ExportPdf.image_added (ExportPdf.yPos s) h (ExportPdf.pdf s) /\
         ExportPdf.yPos s' = (ExportPdf.yPos s + (h + Number.of_Z 2))%num)) /\
  (forall dayEl (s s' : ExportPdf.St N),
      ExportPdf.addDay faults w dayEl s = (Js.Ok tt, s') ->
      exists s0,
        Js.for_of (ExportPdf.day_blocks dayEl) (ExportPdf.addCanvasToPdf faults w) s0
        = (Js.Ok tt, s') /\
        ((ExportPdf.header_may_not_fit (ExportPdf.yPos s) = true /\
          ExportPdf.pdf s0 = ExportPdf.page_added (ExportPdf.pdf s) /\
          ExportPdf.yPos s0 = ExportPdf.MARGIN) \/
         (ExportPdf.header_may_not_fit (ExportPdf.yPos s) = false /\
          ExportPdf.pdf s0 = ExportPdf.pdf s /\ ExportPdf.yPos s0 = ExportPdf.yPos s))) /\
  (ExportPdf.A4_HEIGHT - ExportPdf.MARGIN)%num = 282%float /\
  List.map ExportPdf.placement
    (ExportPdf.images (ExportPdf.exported ExportPdf.no_faults Samples.three_blocks))
    = [(1%nat, 15%float); (1%nat, 57%float); (2%nat, 15%float)].
Proof.
  split; [|split; [apply addDay_ok|split; by vm_compute]].
  intros element s s' H h.
  apply addCanvasToPdf_ok in H as [(Hfit & Hp & Hy) | (Hfit & Hp & Hy)];
    fold h in Hfit, Hp, Hy.
  - split; [|split].
    + split; [intros _; by rewrite Hp|done].
    + done.
    + intros Hn. congruence.
  - split; [|split].
    + split; [congruence|]. rewrite Hp. simpl. lia.
    + intros Hd. congruence.
    + done.
Qed.

(** *** The paginator in exact arithmetic *)

Section Paginator.
Import Js ExportPdf Number.

Variable faults : nat -> bool.

Lemma Qgtb_true (a b : Q) : Qgtb a b = true <-> b < a.
Proof.
  unfold Qgtb. rewrite negb_true_iff. split.
  - intros H. apply Qnot_le_lt. intros Hle. apply Qle_bool_iff in Hle. congruence.
  - intros H. destruct (Qle_bool a b) eqn:E; [|done].
    apply Qle_bool_iff in E. lra.
Qed.




Lemma header_may_not_fit_exact (cursorY : Q) :
  header_may_not_fit cursorY = true <-> 297 - 15 < cursorY + 20.
Proof. unfold header_may_not_fit. simpl. by rewrite Qgtb_true. Qed.



(** *** The paginator's invariant *)

#[local] Arguments imgHeight : simpl never.













End Paginator.

(** *** The properties on sample documents *)

Section ExportSamples.
Import Js ExportPdf Number Samples.

Lemma height_fit_rule_witness :
  does_not_fit (yPos two_placed) (imgHeight (block 250)) = true /\
  pdf three_placed = image_added MARGIN (imgHeight (block 250)) (page_added (pdf two_placed)) /\
  List.map placement (images (pdf three_placed))
    = [(1%nat, 15%float); (1%nat, 57%float); (2%nat, 15%float)].
Proof.
  destruct (height_fit_rule no_faults three_blocks) as (Hblock & _ & _).
  destruct (Hblock (block 250) two_placed three_placed eq_refl) as (Hiff & Hyes & _).
  assert (does_not_fit (yPos two_placed) (imgHeight (block 250)) = true) as Hfit
    by (apply Hiff; reflexivity).
  split; [exact Hfit|]. split; [apply (Hyes Hfit)|reflexivity].
Defined.

(** C2 as the spec words it fails: after a title of height 240 the cursor
    is at 265 on page 1; a day header of height 5 fits there (270 is not
    above 282), and yet it starts page 2 at 15, because of the header
    estimate ([265 + 20 > 282]). *)
Lemma height_fit_rule_counterexample :
  currentPage (pdf after_title) = 1%nat /\ yPos after_title = 265%float /\
  imgHeight (block 5) = 5%float /\
  does_not_fit (yPos after_title) (imgHeight (block 5)) = false /\
  header_may_not_fit (yPos after_title) = true /\
  List.map placement (images (pdf after_day))
    = [(1%nat, 15%float); (2%nat, 15%float)] /\
  List.map placement (images (exported no_faults title_then_day))
    = [(1%nat, 15%float); (2%nat, 15%float)].
Proof. repeat split. Qed.

(** Rounding moves a page break.  Two blocks of heights 718/3 and 77/3:
    in exact arithmetic the second ends at 282, which is not above 282,
    and stays on page 1; in binary64 the sum is 282.00000000000006, and
    the block starts page 2, as it does in the program. *)
Example rounding_moves_a_break :
  List.map img_page (images (@exported Q _ no_faults thirds)) = [1%nat; 1%nat] /\
  List.map img_page (images (@exported number _ no_faults thirds)) = [1%nat; 2%nat].
Proof. split; vm_compute; reflexivity. Qed.

Lemma export_end_signal_witness :
  (generatePdf sixth_call_throws title_then_day (@idle number _)).1 = Ok tt /\
  fired "generatePdfEnd" (generatePdf sixth_call_throws title_then_day (@idle number _)).2
    = 1%nat.
Proof.
  destruct (export_end_signal sixth_call_throws title_then_day (@idle number _))
    as (Hreturns & _ & Hfired).
  split; [apply Hreturns; reflexivity|exact Hfired].
Defined.

(** C3 as the spec words it fails: when the jsPDF script is missing the
    run returns at the first verification step and [generatePdfEnd] is
    not dispatched. *)
Lemma export_end_signal_counterexample :
  (generatePdf no_faults no_jspdf (@idle number _)).1 = Ok tt /\
  fired "generatePdfEnd" (generatePdf no_faults no_jspdf (@idle number _)).2 = 0%nat.
Proof. split; reflexivity. Qed.

(** When [window.jspdf] is [null] the first verification step passes
    ([typeof null] is not ['undefined']) and the read of its [jsPDF]
    property throws to the caller, before export mode is entered. *)
Example null_jspdf_throws :
  (generatePdf no_faults null_jspdf (@idle number _)).1 = Throw "TypeError" /\
  (generatePdf no_faults null_jspdf (@idle number _)).2 = idle.
Proof. split; reflexivity. Qed.

(** When [window.html2canvas] is [null] the call fails inside the [try]
    block: the error is reported and the end of the export signalled. *)
Example null_html2canvas_caught :
  (generatePdf no_faults null_html2canvas (@idle number _)).1 = Ok tt /\
  error (generatePdf no_faults null_html2canvas (@idle number _)).2
    = Some "Failed to generate the PDF. An unexpected error occurred." /\
  dispatched (generatePdf no_faults null_html2canvas (@idle number _)).2
    = ["generatePdfStart"; "generatePdfEnd"].
Proof. repeat split. Qed.

(** A run that throws in the middle of the pagination still signals the
    end of the export, once. *)
Example end_signal_after_throw :
  error (generatePdf sixth_call_throws title_then_day (@idle number _)).2
    = Some "Failed to generate the PDF. An unexpected error occurred." /\
  dispatched (generatePdf sixth_call_throws title_then_day (@idle number _)).2
    = ["generatePdfStart"; "generatePdfEnd"].
Proof. split; reflexivity. Qed.


End ExportSamples.
